(** * functorch support for [torch.autograd.Function]

    A shallow embedding of [torch/_functorch/autograd_function.py]:
    the [custom_function_call] operator, its Grad rule (the per-call
    [Generated] single-level function), the identity-preserving output
    wrapper and the three not-yet-implemented rules.

    Python values are modelled as trees of leaf objects that carry their
    object identity ([id(x)]); the process-wide state the code touches
    (functorch's interpreter stack, grad mode, the autograd-function flag
    and the object allocator) is threaded explicitly through a small
    state-and-exception monad. *)

From stdpp Require Import base option list gmap strings.

Set Warnings "-register-all".
Local Open Scope string_scope.
Local Open Scope list_scope.
Local Open Scope Z_scope.

(** ** Leaf objects and object identity *)

(** [id(x)] of a Python object. *)
Definition ident := nat.
Bind Scope nat_scope with ident.

Inductive scalar :=
| PyInt (n : Z)
| PyStr (s : string)
| PyNone.

(** A leaf object.  [Tensor] and [GradTensorWrapper] are instances of
    [torch.Tensor]; a [GradTensorWrapper] is a tensor tagged with the level
    of the grad transform that owns it and holds the object it wraps. *)
Inductive obj :=
| Tensor (id : ident) (data : Z)
| GradTensorWrapper (id : ident) (level : Z) (value : obj)
| Opaque (id : ident) (v : scalar).

Definition oid (o : obj) : ident :=
  match o with
  | Tensor i _ => i
  | GradTensorWrapper i _ _ => i
  | Opaque i _ => i
  end.

(** [isinstance(o, torch.Tensor)] *)
Definition is_Tensor (o : obj) : bool :=
  match o with
  | Tensor _ _ | GradTensorWrapper _ _ _ => true
  | Opaque _ _ => false
  end.

(** ** Values: nested containers over leaf objects *)

Inductive NodeType :=
| PyTuple
| PyList
| PyDict (keys : list string).

Inductive PyTree :=
| Leaf (o : obj)
| Node (ty : NodeType) (children : list PyTree).

Inductive TreeSpec :=
| LeafSpec
| NodeSpec (ty : NodeType) (children_specs : list TreeSpec).

(** ** The world and the effect monad *)

(** Modelled from the spec: [torch._C._functorch.TransformType] lives
    outside [autograd_function.py]; a layer's type is one of "Grad | Vmap | Jvp |
    Functionalize". *)
Inductive TransformType := Grad | Vmap | Jvp | Functionalize.

(** Modelled from the spec: an interpreter is "a handle bound to one
    TransformLayer", which has a type and a level. *)
Record Interpreter := mkInterpreter {
  key : TransformType;
  ilevel : Z
}.

(** Process-wide state.  The head of [dynamic_layer_stack] is the top of
    functorch's interpreter stack. *)
Record world := mkWorld {
  dynamic_layer_stack : list Interpreter;
  grad_enabled : bool;
  autograd_function_allowed : bool;
  next_id : ident
}.

Definition set_stack (st : list Interpreter) (w : world) : world :=
  mkWorld st (grad_enabled w) (autograd_function_allowed w) (next_id w).
Definition set_grad (b : bool) (w : world) : world :=
  mkWorld (dynamic_layer_stack w) b (autograd_function_allowed w) (next_id w).
Definition set_allowed (b : bool) (w : world) : world :=
  mkWorld (dynamic_layer_stack w) (grad_enabled w) b (next_id w).
Definition set_next_id (n : ident) (w : world) : world :=
  mkWorld (dynamic_layer_stack w) (grad_enabled w) (autograd_function_allowed w) n.

Inductive exn :=
| RuntimeError (msg : string)
| TypeError (msg : string)
| IndexError (msg : string)
| AttributeError (msg : string)
| ValueError (msg : string)
| UserError (code : Z).

(** What running a piece of Python leaves behind: a value, a raised
    exception (both with the state reached), or exhaustion of the recursion
    budget of the model. *)
Inductive outcome (A : Type) :=
| Ok (a : A) (w : world)
| Raise (e : exn) (w : world)
| OutOfFuel.
Arguments Ok {A} a w.
Arguments Raise {A} e w.
Arguments OutOfFuel {A}.

Definition M (A : Type) : Type := world → outcome A.

#[global] Instance M_ret : MRet M := λ A a w, Ok a w.
#[global] Instance M_bind : MBind M := λ A B f m w,
  match m w with
  | Ok a w' => f a w'
  | Raise e w' => Raise e w'
  | OutOfFuel => OutOfFuel
  end.

Definition raise {A} (e : exn) : M A := λ w, Raise e w.
Definition get_world : M world := λ w, Ok w w.
Definition out_of_fuel {A} : M A := λ _, OutOfFuel.

(** [with cm: body], for a context manager given by what it does on entry
    and on exit.  The exit action runs on the normal and on the exceptional
    path; an exception raised by the exit action replaces the one in
    flight. *)
Definition with_ {S A} (enter : M S) (exit : S → M unit) (body : M A) : M A :=
  λ w,
    match enter w with
    | Ok s w1 =>
        match body w1 with
        | Ok a w2 =>
            match exit s w2 with
            | Ok _ w3 => Ok a w3
            | Raise e w3 => Raise e w3
            | OutOfFuel => OutOfFuel
            end
        | Raise e w2 =>
            match exit s w2 with
            | Ok _ w3 => Raise e w3
            | Raise e' w3 => Raise e' w3
            | OutOfFuel => OutOfFuel
            end
        | OutOfFuel => OutOfFuel
        end
    | Raise e w1 => Raise e w1
    | OutOfFuel => OutOfFuel
    end.

(** A [for] loop that threads the loop-carried state [acc]. *)
Fixpoint for_ {A S} (xs : list A) (body : S → A → M S) (acc : S) : M S :=
  match xs with
  | [] => mret acc
  | x :: xs' => acc' ← body acc x; for_ xs' body acc'
  end.

(** ** pytree: flattening containers into their leaves *)

(** Modelled from the spec: [torch.utils._pytree] lives outside
    [autograd_function.py].  "Flatten ... into parallel ordered sequences",
    "reconstruct the original nested structure from the processed flat
    sequence", and a map over the tensor leaves that leaves "non-tensor
    leaves untouched". *)
Module pytree.

Fixpoint leaves (t : PyTree) : list obj :=
  match t with
  | Leaf o => [o]
  | Node _ cs => List.concat (map leaves cs)
  end.

Fixpoint spec_of (t : PyTree) : TreeSpec :=
  match t with
  | Leaf _ => LeafSpec
  | Node ty cs => NodeSpec ty (map spec_of cs)
  end.

Fixpoint num_leaves (s : TreeSpec) : nat :=
  match s with
  | LeafSpec => 1
  | NodeSpec _ ss => sum_list (map num_leaves ss)
  end.

(** [tree_flatten(t)] returns the leaves, left to right, and the spec. *)
Definition tree_flatten (t : PyTree) : list obj * TreeSpec :=
  (leaves t, spec_of t).

(** [tree_unflatten(values, spec)]; [None] stands for the [ValueError]
    raised when the number of values is not the number of leaves of the
    spec. *)
Fixpoint tree_unflatten (values : list obj) (spec : TreeSpec) {struct spec}
  : option PyTree :=
  if negb (length values =? num_leaves spec)%nat then None
  else
    match spec with
    | LeafSpec => Leaf <$> head values
    | NodeSpec ty specs =>
        let fix children (specs : list TreeSpec) (values : list obj)
          : option (list PyTree) :=
          match specs with
          | [] => Some []
          | s :: rest =>
              match tree_unflatten (take (num_leaves s) values) s with
              | Some c =>
                  match children rest (drop (num_leaves s) values) with
                  | Some cs => Some (c :: cs)
                  | None => None
                  end
              | None => None
              end
          end in
        Node ty <$> children specs values
    end.

(** [tree_map_only(ty, fn, t)]: apply [fn] to the leaves that are
    instances of [ty], keep the others and the structure. *)
Fixpoint tree_map_only (ty : obj → bool) (fn : obj → obj) (t : PyTree) : PyTree :=
  match t with
  | Leaf o => Leaf (if ty o then fn o else o)
  | Node k cs => Node k (map (tree_map_only ty fn) cs)
  end.

(** The subtree at a structural position, given as the path of child
    indices from the root. *)
Fixpoint subtree (path : list nat) (t : PyTree) : option PyTree :=
  match path with
  | [] => Some t
  | i :: path' =>
      match t with
      | Leaf _ => None
      | Node _ cs =>
          match cs !! i with
          | Some c => subtree path' c
          | None => None
          end
      end
  end.

End pytree.

(** ** Wrapper primitives *)

(** Modelled from the spec: [torch._C._functorch._wrap_for_grad] and
    [_unwrap_for_grad] live outside [autograd_function.py].  They "produce /
    consume a tensor tagged with an owning transform level".  Wrapping
    allocates a new Python object, so it draws a fresh identity from the
    allocator. *)
Definition _wrap_for_grad (x : obj) (level : Z) : M obj :=
  λ w, Ok (GradTensorWrapper (next_id w) level x) (set_next_id (S (next_id w)) w).

(** Modelled from the spec: unwrapping "at [level]" hands back the object
    the wrapper holds when the wrapper belongs to [level], and the argument
    itself otherwise. *)
Definition _unwrap_for_grad (x : obj) (level : Z) : obj :=
  match x with
  | GradTensorWrapper _ l value => if Z.eqb l level then value else x
  | _ => x
  end.

(** ** Scoped state: the context managers the source enters *)

(** Modelled from the spec: [torch.enable_grad()]; "a scope that enables
    gradient recording", restored on every exit path. *)
Definition enable_grad {A} (body : M A) : M A :=
  with_ (λ w, Ok (grad_enabled w) (set_grad true w))
        (λ prev w, Ok tt (set_grad prev w))
        body.

(** Modelled from the spec: [torch._functorch.utils.enable_autograd_function];
    the scope that marks "a generated differentiable function is currently
    being defined". *)
Definition enable_autograd_function {A} (body : M A) : M A :=
  with_ (λ w, Ok (autograd_function_allowed w) (set_allowed true w))
        (λ prev w, Ok tt (set_allowed prev w))
        body.

(** Modelled from the spec: [interpreter.lower()]; for the duration of the
    block the top layer is taken off the interpreter stack, and pushed back
    on every exit path. *)
Definition pop_dynamic_layer_stack : M Interpreter :=
  λ w,
    match dynamic_layer_stack w with
    | [] => Raise (RuntimeError "pop_dynamic_layer_stack: empty stack") w
    | top :: rest => Ok top (set_stack rest w)
    end.

(** Modelled from the spec: the push that undoes the pop. *)
Definition push_dynamic_layer_stack (saved : Interpreter) : M unit :=
  λ w, Ok tt (set_stack (saved :: dynamic_layer_stack w) w).

(** Modelled from the spec: the scope of [interpreter.lower()] around
    [body]. *)
Definition lower {A} (interpreter : Interpreter) (body : M A) : M A :=
  with_ pop_dynamic_layer_stack push_dynamic_layer_stack body.

(** Modelled from the spec: [interpreter.level()]. *)
Definition level (interpreter : Interpreter) : Z := ilevel interpreter.

(** Modelled from the spec: [torch._C._are_functorch_transforms_active()],
    "the global transform-active check": some layer is on the stack. *)
Definition _are_functorch_transforms_active : M bool :=
  λ w, Ok (match dynamic_layer_stack w with [] => false | _ :: _ => true end) w.

(** ** The identity-preserving output wrapper *)

(** [tree_unflatten] as a computation: the mismatch is a [ValueError]. *)
Definition tree_unflatten (values : list obj) (spec : TreeSpec) : M PyTree :=
  match pytree.tree_unflatten values spec with
  | Some t => mret t
  | None => raise (ValueError "tree_unflatten: number of values does not match the spec")
  end.

(** [{id(unwrapped): orig for unwrapped, orig in pairs}]: the pairs are
    stored in order, a later pair replaces an earlier one with the same
    key. *)
Definition dict_by_id (pairs : list (obj * obj)) : gmap ident obj :=
  foldl (λ d p, <[oid p.1 := p.2]> d) ∅ pairs.

Definition wrap_outputs_maintaining_identity
    (outputs unwrapped_inputs orig_inputs : PyTree) (level : Z) : M PyTree :=
  let '(flat_output, _) := pytree.tree_flatten outputs in
  let '(flat_unwrapped_inputs, _) := pytree.tree_flatten unwrapped_inputs in
  let '(flat_orig_inputs, _) := pytree.tree_flatten orig_inputs in
  let unwrapped_input_to_orig_input :=
    dict_by_id (zip flat_unwrapped_inputs flat_orig_inputs) in
  let '(flat_outputs, spec) := pytree.tree_flatten outputs in
  result ← for_ flat_outputs
    (λ result output,
       if negb (is_Tensor output) then mret (result ++ [output])
       else
         match unwrapped_input_to_orig_input !! oid output with
         | Some orig => mret (result ++ [orig])
         | None =>
             wrapped ← _wrap_for_grad output level;
             mret (result ++ [wrapped])
         end)
    [];
  tree_unflatten result spec.

(** ** Calls *)

Definition kwargs := list (string * PyTree).

(** Something callable with positional and keyword arguments. *)
Definition method := list PyTree → kwargs → M PyTree.

(** A rule registered with [py_impl]: a function with the signature
    [(interpreter, autograd_function, *operands)]. *)
Definition rule := Interpreter → PyTree → list PyTree → M PyTree.

(** Python's argument binding for the call
    [kernel(interpreter, *args, **kwargs)] of a function declared as
    [def kernel(interpreter, autograd_function, *operands)]: there is no
    [**kwargs] parameter, so a keyword is accepted only when it names a
    parameter that no positional argument has filled. *)
Definition call_rule (kernel : rule) (interpreter : Interpreter)
    (args : list PyTree) (kw : kwargs) : M PyTree :=
  match args, kw with
  | autograd_function :: operands, [] => kernel interpreter autograd_function operands
  | _ :: _, (k, _) :: _ =>
      if bool_decide (k = "interpreter" ∨ k = "autograd_function")
      then raise (TypeError ("got multiple values for argument '" +:+ k +:+ "'"))
      else raise (TypeError ("got an unexpected keyword argument '" +:+ k +:+ "'"))
  | [], [] => raise (TypeError "missing 1 required positional argument: 'autograd_function'")
  | [], [(k, v)] =>
      if bool_decide (k = "autograd_function") then kernel interpreter v []
      else if bool_decide (k = "interpreter")
      then raise (TypeError "got multiple values for argument 'interpreter'")
      else raise (TypeError ("got an unexpected keyword argument '" +:+ k +:+ "'"))
  | [], (k, _) :: _ :: _ =>
      raise (TypeError "got multiple values for argument 'interpreter' or an unexpected keyword argument")
  end.

(** The three static methods of a [_SingleLevelFunction] subclass. *)
Record SingleLevelFunction := mkSingleLevelFunction {
  forward : list PyTree → M PyTree;
  setup_context : PyTree → PyTree → list PyTree → M PyTree;
  backward : PyTree → list PyTree → M PyTree
}.

(** Modelled from the spec: [PyOperator.__call__] ([torch/_ops.py]) lives
    outside [autograd_function.py].  "Identify the transform type of the
    top-of-stack interpreter and look up its registered handler (a per-type
    static table).  Call [handler(interpreter, function_descriptor,
    *operands)]"; an unregistered type "must fail fast".  The keyword
    arguments the operator was called with are handed on in that call. *)
Definition PyOperator_call (functorch_table : TransformType → option rule) : method :=
  λ args kw,
    w ← get_world;
    match dynamic_layer_stack w with
    | [] => raise (RuntimeError "no functorch transform is active")
    | interpreter :: _ =>
        match functorch_table (key interpreter) with
        | Some kernel => call_rule kernel interpreter args kw
        | None => raise (RuntimeError "no rule registered for the transform type")
        end
    end.

Section functorch.

(** Attribute lookup [o.name] on a user object, for the callable
    attributes of the autograd.Function the caller supplies
    ([apply], [setup_context], [backward]). *)
Variable getattr : PyTree → string → option method.

(** [_SingleLevelFunction.apply], the autograd engine's entry point. *)
Variable Function_apply : SingleLevelFunction → list PyTree → M PyTree.

(** The method call [o.name] on positional and keyword arguments. *)
Definition call_method (o : PyTree) (name : string) : method :=
  λ args kw,
    match getattr o name with
    | Some m => m args kw
    | None => raise (AttributeError name)
    end.

(** [CustomFunctionPyOperator.__call__]; [super_call] is
    [super().__call__]. *)
Definition CustomFunctionPyOperator_call (super_call : method) : method :=
  λ args kw,
    active ← _are_functorch_transforms_active;
    if active : bool then super_call args kw
    else
      match args with
      | [] => raise (IndexError "tuple index out of range")
      | autograd_function :: rest => call_method autograd_function "apply" rest kw
      end.

(** The class [Generated] that the grad rule defines on each call;
    [custom_function_call] is the operator its forward redispatches to. *)
Definition Generated (custom_function_call : method)
    (maybe_interpreter : Interpreter) (level : Z) (autograd_function : PyTree)
  : SingleLevelFunction :=
  {| forward := λ operands,
       let unwrapped_operands :=
         map (pytree.tree_map_only is_Tensor (λ x, _unwrap_for_grad x level)) operands in
       output ← enable_grad (lower maybe_interpreter
                   (custom_function_call (autograd_function :: unwrapped_operands) []));
       wrap_outputs_maintaining_identity
         output
         (Node PyTuple unwrapped_operands)
         (Node PyTuple operands)
         level;
     setup_context := λ ctx outputs operands,
       call_method autograd_function "setup_context" (ctx :: outputs :: operands) [];
     backward := λ ctx grads,
       result ← call_method autograd_function "backward" (ctx :: grads) [];
       mret result |}.

Definition custom_function_call_grad (custom_function_call : method) : rule :=
  λ interpreter autograd_function operands,
    let maybe_interpreter := interpreter in
    let level := level maybe_interpreter in
    flat_out ← enable_autograd_function
      (Function_apply (Generated custom_function_call maybe_interpreter level autograd_function)
                      operands);
    mret flat_out.

Definition custom_function_call_vmap : rule :=
  λ interpreter autograd_function operands,
    raise (RuntimeError "NYI: vmap rule for custom_function_call").

Definition custom_function_call_jvp : rule :=
  λ interpreter autograd_function operands,
    raise (RuntimeError "NYI: jvp rule for custom_function_call").

Definition custom_function_call_functionalize : rule :=
  λ interpreter autograd_function operands,
    raise (RuntimeError "NYI: Functionalize rule for custom_function_call").

(** The table the four [py_impl] decorators fill. *)
Definition functorch_table (custom_function_call : method) (t : TransformType) : option rule :=
  match t with
  | Grad => Some (custom_function_call_grad custom_function_call)
  | Vmap => Some custom_function_call_vmap
  | Jvp => Some custom_function_call_jvp
  | Functionalize => Some custom_function_call_functionalize
  end.

(** The operator object [custom_function_call].  [fuel] bounds how many
    times a grad rule may redispatch to the operator below it. *)
Fixpoint custom_function_call (fuel : nat) : method :=
  CustomFunctionPyOperator_call
    (PyOperator_call
       (functorch_table
          match fuel with
          | O => λ _ _, out_of_fuel
          | S fuel' => custom_function_call fuel'
          end)).

(** The operator as the forward of a [Generated] class sees it. *)
Definition redispatch (fuel : nat) : method :=
  match fuel with
  | O => λ _ _, out_of_fuel
  | S fuel' => custom_function_call fuel'
  end.

End functorch.

(** The error a transform type without a real rule answers with. *)
Definition unsupported_transform_error (t : TransformType) : option exn :=
  match t with
  | Grad => None
  | Vmap => Some (RuntimeError "NYI: vmap rule for custom_function_call")
  | Jvp => Some (RuntimeError "NYI: jvp rule for custom_function_call")
  | Functionalize => Some (RuntimeError "NYI: Functionalize rule for custom_function_call")
  end.

(** Does [msg] mention [name]? *)
Definition mentions (name msg : string) : bool :=
  match String.index 0 name msg with
  | Some _ => true
  | None => false
  end.

(** ** A small user program to run the definitions on *)

Module Demo.

(** The class object of a user's autograd.Function. *)
Definition MyFn : PyTree := Leaf (Opaque 100 (PyStr "MyFn")).

(** Its methods: [apply] returns its first operand as it is,
    [setup_context] returns [None], [backward] returns the incoming
    gradients. *)
Definition getattr (o : PyTree) (name : string) : option method :=
  match o with
  | Leaf (Opaque 100%nat _) =>
      if bool_decide (name = "apply") then
        Some (λ args _, match args with
                        | x :: _ => mret x
                        | [] => raise (TypeError "forward() missing 1 required positional argument")
                        end)
      else if bool_decide (name = "setup_context") then
        Some (λ _ _, mret (Leaf (Opaque 0 PyNone)))
      else if bool_decide (name = "backward") then
        Some (λ args _, mret (Node PyTuple (tail args)))
      else None
  | _ => None
  end.

(** A stand-in for the autograd engine: run the forward, then let the
    class record what it needs for the backward. *)
Definition Function_apply (cls : SingleLevelFunction) (operands : list PyTree) : M PyTree :=
  outputs ← forward cls operands;
  _ ← setup_context cls (Leaf (Opaque 101 (PyStr "ctx"))) outputs operands;
  mret outputs.

Definition x : obj := Tensor 1 7.
Definition y : obj := Tensor 5 8.
(** [x] as the grad transform at level 1 sees it. *)
Definition wx : obj := GradTensorWrapper 2 1 x.
Definition wx' : obj := GradTensorWrapper 3 1 x.
Definition n : obj := Opaque 4 (PyInt 42).

Definition idle : world := mkWorld [] false false 10.
Definition under (t : TransformType) : world :=
  mkWorld [mkInterpreter t 1] false false 10.

End Demo.

(** A second user program: an autograd.Function whose [apply] takes no
    operand and returns a constant. *)
Module Thunk.

Definition Fn : PyTree := Leaf (Opaque 7 (PyStr "Thunk")).

Definition getattr (o : PyTree) (name : string) : option method :=
  match o with
  | Leaf (Opaque 7%nat _) =>
      if bool_decide (name = "apply") then Some (λ _ _, mret (Leaf Demo.n))
      else if bool_decide (name = "setup_context") then
        Some (λ _ _, mret (Leaf (Opaque 0 PyNone)))
      else if bool_decide (name = "backward") then
        Some (λ args _, mret (Node PyTuple (tail args)))
      else None
  | _ => None
  end.

End Thunk.

(** ** Vocabulary for the further properties *)

(** What the unwrap step of [Generated.forward] does to one leaf. *)
Definition unwrap_leaf (lvl : Z) (o : obj) : obj :=
  if is_Tensor o then _unwrap_for_grad o lvl else o.

(** Does the loop of the output wrapper reach [_wrap_for_grad] for [o],
    given the dict [d]? *)
Definition needs_wrapper (d : gmap ident obj) (o : obj) : bool :=
  is_Tensor o && match d !! oid o with Some _ => false | None => true end.

(** A computation keeps the scoped state when, however it ends, the
    interpreter stack, grad mode and the autograd-function flag are what
    they were when it started. *)
Definition keeps_scopes {A} (m : M A) : Prop :=
  ∀ w,
    match m w with
    | Ok _ w' | Raise _ w' =>
        dynamic_layer_stack w' = dynamic_layer_stack w
        ∧ grad_enabled w' = grad_enabled w
        ∧ autograd_function_allowed w' = autograd_function_allowed w
    | OutOfFuel => True
    end.

(** * Properties *)

(** ** Induction over nested containers *)

Lemma PyTree_forall_ind (P : PyTree → Prop) :
  (∀ o, P (Leaf o)) →
  (∀ ty cs, Forall P cs → P (Node ty cs)) →
  ∀ t, P t.
Proof.
  intros HL HN. fix IH 1. intros [o | ty cs].
  - apply HL.
  - apply HN. induction cs as [| c cs IHcs]; constructor; [apply IH | exact IHcs].
Qed.

Lemma TreeSpec_forall_ind (P : TreeSpec → Prop) :
  P LeafSpec →
  (∀ ty ss, Forall P ss → P (NodeSpec ty ss)) →
  ∀ s, P s.
Proof.
  intros HL HN. fix IH 1. intros [| ty ss].
  - apply HL.
  - apply HN. induction ss as [| s ss IHss]; constructor; [apply IH | exact IHss].
Qed.

(** ** pytree *)

Lemma length_leaves t :
  length (pytree.leaves t) = pytree.num_leaves (pytree.spec_of t).
Proof.
  induction t as [o | ty cs IH] using PyTree_forall_ind; [reflexivity |].
  simpl. induction IH as [| c cs Hc _ IHcs]; [reflexivity |].
  simpl. rewrite length_app, Hc, IHcs. reflexivity.
Qed.

Lemma tree_unflatten_spec spec :
  ∀ values, length values = pytree.num_leaves spec →
    ∃ t, pytree.tree_unflatten values spec = Some t
         ∧ pytree.spec_of t = spec ∧ pytree.leaves t = values.
Proof.
  induction spec as [| ty ss IH] using TreeSpec_forall_ind; intros values Hlen.
  - destruct values as [| v [| ? ?]]; try discriminate.
    exists (Leaf v). repeat split; reflexivity.
  - cbn [pytree.tree_unflatten].
    rewrite (proj2 (Nat.eqb_eq _ _) Hlen). cbn [negb].
    match goal with |- context [fmap (Node ty) (?f ss values)] => set (children := f) end.
    assert (Hch : ∃ cs, children ss values = Some cs
                        ∧ map pytree.spec_of cs = ss
                        ∧ List.concat (map pytree.leaves cs) = values).
    { change (length values = sum_list (map pytree.num_leaves ss)) in Hlen.
      revert values Hlen.
      induction IH as [| s ss Hs _ IHss]; intros values Hlen.
      - destruct values; [| discriminate]. exists []. repeat split; reflexivity.
      - cbn [pytree.num_leaves map sum_list sum_list_with] in Hlen.
        destruct (Hs (take (pytree.num_leaves s) values)) as (c & Hc & Hcs & Hcl).
        { rewrite length_take. cbn in Hlen. lia. }
        destruct (IHss (drop (pytree.num_leaves s) values)) as (cs & Hcs' & Hss & Hl).
        { rewrite length_drop. cbn in *. lia. }
        exists (c :: cs). cbn [children]. fold children.
        rewrite Hc, Hcs'. repeat split.
        + cbn. by rewrite Hcs, Hss.
        + cbn. rewrite Hcl, Hl. apply take_drop. }
    destruct Hch as (cs & -> & Hss & Hl).
    exists (Node ty cs). cbn. by rewrite Hss, Hl.
Qed.

Lemma children_related (R : obj → obj → Prop) cs :
  ∀ cs' i c,
    map pytree.spec_of cs = map pytree.spec_of cs' →
    Forall2 R (List.concat (map pytree.leaves cs)) (List.concat (map pytree.leaves cs')) →
    cs !! i = Some c →
    ∃ c', cs' !! i = Some c' ∧ pytree.spec_of c = pytree.spec_of c'
          ∧ Forall2 R (pytree.leaves c) (pytree.leaves c').
Proof.
  induction cs as [| d cs IH]; intros cs' i c Hspec HR Hi; [done |].
  destruct cs' as [| d' cs']; [done |].
  cbn in Hspec. injection Hspec as Hd Hcs.
  cbn in HR. apply Forall2_app_inv in HR as [HRd HRcs];
    [| by rewrite !length_leaves, Hd].
  destruct i as [| i]; cbn in Hi |- *.
  - injection Hi as <-. eauto.
  - eapply IH; eauto.
Qed.

Lemma subtree_related (R : obj → obj → Prop) path :
  ∀ t t' s,
    pytree.spec_of t = pytree.spec_of t' →
    Forall2 R (pytree.leaves t) (pytree.leaves t') →
    pytree.subtree path t = Some s →
    ∃ s', pytree.subtree path t' = Some s' ∧ pytree.spec_of s = pytree.spec_of s'
          ∧ Forall2 R (pytree.leaves s) (pytree.leaves s').
Proof.
  induction path as [| i path IH]; intros t t' s Hspec HR Hs; cbn in Hs.
  - injection Hs as <-. exists t'. eauto.
  - destruct t as [o | ty cs]; [done |].
    destruct t' as [o' | ty' cs']; [done |].
    cbn in Hspec. injection Hspec as -> Hcs.
    destruct (cs !! i) as [c |] eqn:Hc; [| done].
    destruct (children_related R cs cs' i c Hcs HR Hc) as (c' & Hc' & Hsp & HRc).
    cbn. rewrite Hc'. eauto.
Qed.

Lemma tree_map_only_spec ty fn t :
  pytree.spec_of (pytree.tree_map_only ty fn t) = pytree.spec_of t.
Proof.
  induction t as [o | k cs IH] using PyTree_forall_ind; [reflexivity |].
  cbn. f_equal. rewrite map_map. apply map_ext_Forall. exact IH.
Qed.

Lemma tree_map_only_leaves ty fn t :
  pytree.leaves (pytree.tree_map_only ty fn t)
  = map (λ o, if ty o then fn o else o) (pytree.leaves t).
Proof.
  induction t as [o | k cs IH] using PyTree_forall_ind; [reflexivity |].
  cbn. rewrite map_map. induction IH as [| c cs Hc _ IHcs]; [reflexivity |].
  cbn. rewrite map_app, Hc, IHcs. reflexivity.
Qed.

(** ** The dict keyed by object identity *)

Lemma dict_by_id_snoc pairs p :
  dict_by_id (pairs ++ [p]) = <[oid p.1 := p.2]> (dict_by_id pairs).
Proof. unfold dict_by_id. by rewrite foldl_app. Qed.

(** A binding of the dict comes from a pair that no later pair with the
    same key follows. *)
Lemma dict_by_id_Some pairs k r :
  dict_by_id pairs !! k = Some r →
  ∃ j u, pairs !! j = Some (u, r) ∧ oid u = k
         ∧ ∀ j' p, (j < j')%nat → pairs !! j' = Some p → oid p.1 ≠ k.
Proof.
  induction pairs as [| [u' r'] pairs IH] using rev_ind; [done |].
  rewrite dict_by_id_snoc. cbn [fst snd]. intros H.
  destruct (decide (oid u' = k)) as [<- | Hne].
  - rewrite lookup_insert_eq in H. injection H as ->.
    exists (length pairs), u'. split; [by rewrite list_lookup_middle |].
    split; [done |]. intros j' p Hlt Hp.
    apply lookup_lt_Some in Hp. rewrite length_app in Hp. cbn in Hp. lia.
  - rewrite lookup_insert_ne in H by done.
    destruct (IH H) as (j & u & Hj & Hu & Hlast).
    exists j, u. split; [by apply lookup_app_l_Some |]. split; [done |].
    intros j' p Hlt Hp. apply lookup_app_Some in Hp as [Hp | [Hge Hp]].
    + eauto.
    + destruct (j' - length pairs)%nat; [| done]. cbn in Hp. by injection Hp as <-.
Qed.

Lemma dict_by_id_None pairs k :
  dict_by_id pairs !! k = None ↔ ∀ j p, pairs !! j = Some p → oid p.1 ≠ k.
Proof.
  induction pairs as [| p' pairs IH] using rev_ind.
  - split; [intros _ j p Hp; done | intros _; apply lookup_empty].
  - rewrite dict_by_id_snoc. split.
    + intros H j p Hp. destruct (decide (oid p'.1 = k)) as [<- | Hne].
      { by rewrite lookup_insert_eq in H. }
      rewrite lookup_insert_ne in H by done.
      apply lookup_app_Some in Hp as [Hp | [Hge Hp]].
      * eapply IH; eauto.
      * destruct (j - length pairs)%nat; [| done]. cbn in Hp. by injection Hp as <-.
    + intros H. rewrite lookup_insert_ne.
      * apply IH. intros j p Hp. apply (H j). by apply lookup_app_l_Some.
      * apply (H (length pairs)). by rewrite list_lookup_middle.
Qed.

(** The pair at the last position that carries a key decides the binding. *)
Lemma dict_by_id_last pairs j u r :
  pairs !! j = Some (u, r) →
  (∀ j' p, (j < j')%nat → pairs !! j' = Some p → oid p.1 ≠ oid u) →
  dict_by_id pairs !! oid u = Some r.
Proof.
  intros Hj Hlast.
  destruct (dict_by_id pairs !! oid u) as [r' |] eqn:Hd.
  - destruct (dict_by_id_Some _ _ _ Hd) as (i & u' & Hi & Hu' & Hlast').
    destruct (Nat.lt_trichotomy i j) as [Hlt | [-> | Hgt]].
    + exfalso. by apply (Hlast' j (u, r) Hlt Hj).
    + congruence.
    + exfalso. by apply (Hlast i (u', r') Hgt Hi).
  - exfalso. rewrite dict_by_id_None in Hd. by apply (Hd j (u, r) Hj).
Qed.

(** ** The loop of the output wrapper *)

Lemma for_cons {A S} (x : A) xs (body : S → A → M S) acc w :
  for_ (x :: xs) body acc w
  = match body acc x w with
    | Ok acc' w' => for_ xs body acc' w'
    | Raise e w' => Raise e w'
    | OutOfFuel => OutOfFuel
    end.
Proof. reflexivity. Qed.

(** What the loop over [flat_outputs] appends for each output, given the
    dict [d]. *)
Lemma wrap_loop (d : gmap ident obj) lvl body :
  body = (λ result output,
           if negb (is_Tensor output) then mret (result ++ [output])
           else
             match d !! oid output with
             | Some orig => mret (result ++ [orig])
             | None =>
                 wrapped ← _wrap_for_grad output lvl;
                 mret (result ++ [wrapped])
             end) →
  ∀ xs acc w,
    ∃ rs w',
      for_ xs body acc w = Ok (acc ++ rs) w'
      ∧ length rs = length xs
      ∧ (next_id w ≤ next_id w')%nat
      ∧ w' = set_next_id (next_id w') w
      ∧ ∀ i o, xs !! i = Some o →
          match is_Tensor o, d !! oid o with
          | false, _ => rs !! i = Some o
          | true, Some orig => rs !! i = Some orig
          | true, None =>
              ∃ n, (next_id w ≤ n < next_id w')%nat
                   ∧ rs !! i = Some (GradTensorWrapper n lvl o)
          end.
Proof.
  intros Hbody xs. induction xs as [| x xs IH]; intros acc w.
  - exists [], w. rewrite app_nil_r. repeat split; try done. by destruct w.
  - rewrite for_cons.
    assert (Hb : body acc x w
                 = if negb (is_Tensor x) then Ok (acc ++ [x]) w
                   else match d !! oid x with
                        | Some orig => Ok (acc ++ [orig]) w
                        | None => Ok (acc ++ [GradTensorWrapper (next_id w) lvl x])
                                     (set_next_id (S (next_id w)) w)
                        end).
    { rewrite Hbody. destruct (is_Tensor x); cbn [negb]; [| reflexivity].
      destruct (d !! oid x); reflexivity. }
    rewrite Hb. clear Hb.
    destruct (is_Tensor x) eqn:Hx; cbn [negb].
    + destruct (d !! oid x) as [orig |] eqn:Hd.
      * destruct (IH (acc ++ [orig]) w) as (rs & w' & Hrun & Hlen & Hle & Hw & Hrs).
        exists (orig :: rs), w'. rewrite Hrun, <- app_assoc.
        split; [done |]. split; [cbn; lia |]. split; [done |]. split; [done |].
        intros [| i] o Ho; cbn in Ho.
        -- injection Ho as <-. by rewrite Hx, Hd.
        -- apply (Hrs i o Ho).
      * destruct (IH (acc ++ [GradTensorWrapper (next_id w) lvl x])
                    (set_next_id (S (next_id w)) w))
          as (rs & w' & Hrun & Hlen & Hle & Hw & Hrs).
        exists (GradTensorWrapper (next_id w) lvl x :: rs), w'.
        rewrite Hrun, <- app_assoc. cbn in Hle.
        split; [done |]. split; [cbn; lia |]. split; [lia |].
        split; [by rewrite Hw at 1 |].
        intros [| i] o Ho; cbn in Ho.
        -- injection Ho as <-. rewrite Hx, Hd. exists (next_id w). split; [lia | done].
        -- specialize (Hrs i o Ho). destruct (is_Tensor o); [| done].
           destruct (d !! oid o); [done |].
           destruct Hrs as (n & Hn & Hr). exists n. split; [cbn in Hn; lia | done].
    + destruct (IH (acc ++ [x]) w) as (rs & w' & Hrun & Hlen & Hle & Hw & Hrs).
      exists (x :: rs), w'. rewrite Hrun, <- app_assoc.
      split; [done |]. split; [cbn; lia |]. split; [done |]. split; [done |].
      intros [| i] o Ho; cbn in Ho.
      -- injection Ho as <-. by rewrite Hx.
      -- apply (Hrs i o Ho).
Qed.

Lemma subtree_leaf_related (R : obj → obj → Prop) path t t' o :
  pytree.spec_of t = pytree.spec_of t' →
  Forall2 R (pytree.leaves t) (pytree.leaves t') →
  pytree.subtree path t = Some (Leaf o) →
  ∃ o', pytree.subtree path t' = Some (Leaf o') ∧ R o o'.
Proof.
  intros Hspec HR Hs.
  destruct (subtree_related R path t t' (Leaf o) Hspec HR Hs) as (s' & Hs' & Hsp & HRs).
  destruct s' as [o' | ty cs]; [| done].
  exists o'. split; [done |]. cbn in HRs. by apply Forall2_cons_1 in HRs as [? _].
Qed.

(** ** What the output wrapper returns *)

(** The wrapper always returns; the tree it returns has the structure of
    [outputs], and its leaves are decided one by one by the dict built from
    the two input sequences.  Only the allocator moves. *)
Lemma wrap_outputs_run outputs unwrapped_inputs orig_inputs lvl w :
  ∃ t' w',
    wrap_outputs_maintaining_identity outputs unwrapped_inputs orig_inputs lvl w = Ok t' w'
    ∧ pytree.spec_of t' = pytree.spec_of outputs
    ∧ length (pytree.leaves t') = length (pytree.leaves outputs)
    ∧ (next_id w ≤ next_id w')%nat
    ∧ w' = set_next_id (next_id w') w
    ∧ ∀ i o, pytree.leaves outputs !! i = Some o →
        match is_Tensor o,
              dict_by_id (zip (pytree.leaves unwrapped_inputs) (pytree.leaves orig_inputs))
                !! oid o with
        | false, _ => pytree.leaves t' !! i = Some o
        | true, Some orig => pytree.leaves t' !! i = Some orig
        | true, None =>
            ∃ n, (next_id w ≤ n < next_id w')%nat
                 ∧ pytree.leaves t' !! i = Some (GradTensorWrapper n lvl o)
        end.
Proof.
  unfold wrap_outputs_maintaining_identity, pytree.tree_flatten.
  set (d := dict_by_id _).
  match goal with |- context [for_ _ ?b _] => set (body := b) end.
  destruct (wrap_loop d lvl body eq_refl (pytree.leaves outputs) [] w)
    as (rs & w' & Hrun & Hlen & Hle & Hw & Hrs).
  cbn [app] in Hrun.
  destruct (tree_unflatten_spec (pytree.spec_of outputs) rs) as (t' & Hun & Hsp & Hl).
  { by rewrite Hlen, length_leaves. }
  exists t', w'. unfold mbind, M_bind. rewrite Hrun.
  unfold tree_unflatten. rewrite Hun. rewrite Hl.
  repeat split; done.
Qed.

(** ** The operator *)

Lemma custom_function_call_unfold getattr Function_apply fuel :
  custom_function_call getattr Function_apply fuel
  = CustomFunctionPyOperator_call getattr
      (PyOperator_call
         (functorch_table getattr Function_apply (redispatch getattr Function_apply fuel))).
Proof. destruct fuel; reflexivity. Qed.

(** With a layer on the stack the operator is [PyOperator.__call__] on the
    table of rules. *)
Lemma custom_function_call_active getattr Function_apply fuel args kw w interpreter rest :
  dynamic_layer_stack w = interpreter :: rest →
  custom_function_call getattr Function_apply fuel args kw w
  = match functorch_table getattr Function_apply
            (redispatch getattr Function_apply fuel) (key interpreter) with
    | Some kernel => call_rule kernel interpreter args kw w
    | None => Raise (RuntimeError "no rule registered for the transform type") w
    end.
Proof.
  intros Hst. rewrite custom_function_call_unfold.
  unfold CustomFunctionPyOperator_call, PyOperator_call, mbind, M_bind,
    _are_functorch_transforms_active, get_world.
  rewrite Hst. cbv beta iota. rewrite Hst.
  by destruct (functorch_table _ _ _ _).
Qed.

(** Under a Grad layer the operator runs the grad rule, whose generated
    class redispatches to the operator with one unit of budget less. *)
Lemma custom_function_call_grad_layer getattr Function_apply fuel f x w interpreter rest :
  dynamic_layer_stack w = interpreter :: rest →
  key interpreter = Grad →
  custom_function_call getattr Function_apply (S fuel) (f :: x) [] w
  = custom_function_call_grad getattr Function_apply
      (custom_function_call getattr Function_apply fuel) interpreter f x w.
Proof.
  intros Hst Hkey.
  by rewrite (custom_function_call_active _ _ _ _ _ _ _ _ Hst), Hkey.
Qed.

(** C1.  Bypass: when the transform-active check answers that no functorch
    transform is active, calling [custom_function_call] on [f], the
    operands [x] and the keyword arguments [kw] is calling [f.apply] on
    [x] and [kw]: the same value or exception and the same final state,
    with nothing wrapped, for every budget of redispatches. *)
Theorem custom_function_call_bypass getattr Function_apply fuel f x kw w :
  _are_functorch_transforms_active w = Ok false w →
  custom_function_call getattr Function_apply fuel (f :: x) kw w
  = call_method getattr f "apply" x kw w.
Proof.
  intros Hidle. rewrite custom_function_call_unfold.
  unfold CustomFunctionPyOperator_call, mbind, M_bind.
  by rewrite Hidle.
Qed.

Lemma custom_function_call_bypass_witness :
  _are_functorch_transforms_active Demo.idle = Ok false Demo.idle
  ∧ custom_function_call Demo.getattr Demo.Function_apply 0
      [Demo.MyFn; Leaf Demo.wx; Leaf Demo.n] [] Demo.idle
    = Ok (Leaf Demo.wx) Demo.idle.
Proof.
  split; [reflexivity |].
  etrans; [apply (custom_function_call_bypass Demo.getattr Demo.Function_apply 0
                    Demo.MyFn [Leaf Demo.wx; Leaf Demo.n] [] Demo.idle); reflexivity |].
  reflexivity.
Defined.

(** ** The rules that are not implemented *)

(** C4.  Each of the three stub rules raises, for every interpreter,
    autograd.Function and operand list and in every state, a RuntimeError
    whose message says "NYI" and names the transform; the state it raises
    in is the state it was called in, so nothing was done before. *)
Theorem stub_rules_raise interpreter autograd_function operands w :
  (custom_function_call_vmap interpreter autograd_function operands w
   = Raise (RuntimeError "NYI: vmap rule for custom_function_call") w
   ∧ mentions "vmap" "NYI: vmap rule for custom_function_call" = true)
  ∧ (custom_function_call_jvp interpreter autograd_function operands w
     = Raise (RuntimeError "NYI: jvp rule for custom_function_call") w
     ∧ mentions "jvp" "NYI: jvp rule for custom_function_call" = true)
  ∧ (custom_function_call_functionalize interpreter autograd_function operands w
     = Raise (RuntimeError "NYI: Functionalize rule for custom_function_call") w
     ∧ mentions "Functionalize" "NYI: Functionalize rule for custom_function_call" = true).
Proof. repeat split; vm_compute; reflexivity. Qed.

Lemma stub_rule_in_table getattr Function_apply cfc t e :
  unsupported_transform_error t = Some e →
  ∃ kernel, functorch_table getattr Function_apply cfc t = Some kernel
            ∧ ∀ interpreter autograd_function operands w,
                kernel interpreter autograd_function operands w = Raise e w.
Proof.
  destruct t; cbn; intros He; try discriminate; injection He as <-;
    eexists; (split; [reflexivity |]); done.
Qed.

Lemma call_rule_raises (kernel : rule) e interpreter args kw w :
  (∀ i f ops w', kernel i f ops w' = Raise e w') →
  ∃ e', call_rule kernel interpreter args kw w = Raise e' w.
Proof.
  intros Hk. unfold call_rule.
  destruct args as [| f ops], kw as [| [k v] [| ? ?]];
    repeat case_bool_decide; eauto.
Qed.

(** C8.  With Vmap, Jvp or Functionalize on top of the interpreter stack,
    calling the operator on an autograd.Function and operands raises that
    transform's not-implemented error, and the state in which the error
    reaches the caller is the state before the call: the interpreter stack
    (and so its depth) is as it was.  Whatever the arguments, the call
    raises in the unchanged state. *)
Theorem stub_dispatch_leaves_stack getattr Function_apply fuel w interpreter rest e :
  dynamic_layer_stack w = interpreter :: rest →
  unsupported_transform_error (key interpreter) = Some e →
  (∀ f x, custom_function_call getattr Function_apply fuel (f :: x) [] w = Raise e w)
  ∧ (∀ args kw, ∃ e' w',
       custom_function_call getattr Function_apply fuel args kw w = Raise e' w'
       ∧ w' = w
       ∧ dynamic_layer_stack w' = interpreter :: rest
       ∧ length (dynamic_layer_stack w') = length (dynamic_layer_stack w)).
Proof.
  intros Hst He.
  destruct (stub_rule_in_table getattr Function_apply
              (redispatch getattr Function_apply fuel) _ _ He) as (kernel & Hk & Hraise).
  split.
  - intros f x. rewrite (custom_function_call_active _ _ _ _ _ _ _ _ Hst), Hk.
    apply Hraise.
  - intros args kw.
    rewrite (custom_function_call_active _ _ _ _ _ _ _ _ Hst), Hk.
    destruct (call_rule_raises kernel e interpreter args kw w Hraise) as (e' & ->).
    exists e', w. by rewrite Hst.
Qed.

Lemma stub_dispatch_leaves_stack_witness :
  custom_function_call Demo.getattr Demo.Function_apply 3
    [Demo.MyFn; Leaf Demo.wx] [] (Demo.under Jvp)
  = Raise (RuntimeError "NYI: jvp rule for custom_function_call") (Demo.under Jvp).
Proof.
  apply (stub_dispatch_leaves_stack Demo.getattr Demo.Function_apply 3
           (Demo.under Jvp) (mkInterpreter Jvp 1) []); reflexivity.
Defined.

(** ** Keyword arguments under the grad rule *)

Lemma call_rule_kwargs (kernel : rule) interpreter f x kw w :
  kw ≠ [] →
  ∃ msg, call_rule kernel interpreter (f :: x) kw w = Raise (TypeError msg) w.
Proof.
  intros Hkw. destruct kw as [| [k v] kw]; [done |].
  unfold call_rule. case_bool_decide; eauto.
Qed.

(** The one call with keyword arguments that binds: no positional
    argument and the single keyword [autograd_function]. *)
Lemma call_rule_rejects (kernel : rule) interpreter args kw w :
  kw ≠ [] →
  (args = [] → ∀ v, kw ≠ [("autograd_function", v)]) →
  ∃ msg, call_rule kernel interpreter args kw w = Raise (TypeError msg) w.
Proof.
  intros Hkw Hnot. unfold call_rule.
  destruct args as [| f ops], kw as [| [k v] [| ? ?]]; try done;
    repeat case_bool_decide; eauto.
  subst k. by destruct (Hnot eq_refl v).
Qed.

(** C9, amended.  While a Grad layer is on top of the stack, a call of
    the operator with a non-empty set of keyword arguments fails, unless it
    is the call with no positional argument whose only keyword is
    [autograd_function]: binding the call to the rule's signature, which
    has no parameter for keyword arguments, raises a TypeError, in the
    state of the call, and the rule does not run.  In particular every
    call that passes the autograd.Function positionally fails. *)
Theorem grad_rule_rejects_kwargs getattr Function_apply fuel w interpreter rest args kw :
  dynamic_layer_stack w = interpreter :: rest →
  key interpreter = Grad →
  kw ≠ [] →
  (args = [] → ∀ v, kw ≠ [("autograd_function", v)]) →
  ∃ msg, custom_function_call getattr Function_apply fuel args kw w
         = Raise (TypeError msg) w.
Proof.
  intros Hst Hkey Hkw Hnot.
  rewrite (custom_function_call_active _ _ _ _ _ _ _ _ Hst), Hkey. cbn [functorch_table].
  by apply call_rule_rejects.
Qed.

Lemma grad_rule_rejects_kwargs_witness :
  ∃ msg, custom_function_call Demo.getattr Demo.Function_apply 3
           [Demo.MyFn; Leaf Demo.wx] [("scale", Leaf Demo.n)] (Demo.under Grad)
         = Raise (TypeError msg) (Demo.under Grad).
Proof.
  apply (grad_rule_rejects_kwargs Demo.getattr Demo.Function_apply 3
           (Demo.under Grad) (mkInterpreter Grad 1) []);
    [reflexivity | reflexivity | discriminate | discriminate].
Defined.

(** C9, counterexample.  The statement for every call with keyword
    arguments fails: under a Grad layer the call with no
    positional argument and the keyword [autograd_function] is bound to
    the rule's parameter of that name, the rule runs and the call
    returns. *)
Lemma grad_rule_accepts_function_keyword :
  dynamic_layer_stack (Demo.under Grad) = [mkInterpreter Grad 1]
  ∧ [("autograd_function", Thunk.Fn)] ≠ ([] : kwargs)
  ∧ custom_function_call Thunk.getattr Demo.Function_apply 1
      [] [("autograd_function", Thunk.Fn)] (Demo.under Grad)
    = Ok (Leaf Demo.n) (Demo.under Grad)
  ∧ ¬ ∃ e w', custom_function_call Thunk.getattr Demo.Function_apply 1
                [] [("autograd_function", Thunk.Fn)] (Demo.under Grad)
              = Raise e w'.
Proof.
  assert (Hrun : custom_function_call Thunk.getattr Demo.Function_apply 1
                   [] [("autograd_function", Thunk.Fn)] (Demo.under Grad)
                 = Ok (Leaf Demo.n) (Demo.under Grad))
    by (vm_compute; reflexivity).
  split; [reflexivity |]. split; [discriminate |]. split; [exact Hrun |].
  intros (e & w' & Hfail). rewrite Hrun in Hfail. discriminate.
Qed.

(** ** The grad rule and the class it generates *)

Lemma set_grad_restore b w : set_grad (grad_enabled w) (set_grad b w) = w.
Proof. by destruct w. Qed.

(** What the forward of [Generated] does, for any operator [cfc] it
    redispatches to. *)
Lemma Generated_forward_eq getattr (cfc : method) interpreter f operands w :
  let lvl := level interpreter in
  let unwrapped_operands :=
    map (pytree.tree_map_only is_Tensor (λ x, _unwrap_for_grad x lvl)) operands in
  forward (Generated getattr cfc interpreter lvl f) operands w
  = match dynamic_layer_stack w with
    | [] => Raise (RuntimeError "pop_dynamic_layer_stack: empty stack") w
    | top :: rest =>
        match cfc (f :: unwrapped_operands) [] (set_stack rest (set_grad true w)) with
        | Ok output w1 =>
            wrap_outputs_maintaining_identity
              output (Node PyTuple unwrapped_operands) (Node PyTuple operands) lvl
              (set_grad (grad_enabled w) (set_stack (top :: dynamic_layer_stack w1) w1))
        | Raise e w1 =>
            Raise e (set_grad (grad_enabled w) (set_stack (top :: dynamic_layer_stack w1) w1))
        | OutOfFuel => OutOfFuel
        end
    end.
Proof.
  intros lvl unwrapped_operands. cbn [forward Generated]. fold unwrapped_operands.
  unfold mbind, M_bind, enable_grad, lower, with_,
    pop_dynamic_layer_stack, push_dynamic_layer_stack.
  cbn [dynamic_layer_stack set_grad].
  destruct (dynamic_layer_stack w) as [| top rest] eqn:Hst.
  - by rewrite set_grad_restore.
  - by destruct (cfc _ _ _).
Qed.

(** C3.  The forward of the class generated by the grad rule: the
    operands are unwrapped at the rule's level, tensor leaves only, the
    structure kept; the operator is then called on the autograd.Function
    and the unwrapped operands in the state where grad mode is on and the
    top layer is off the interpreter stack; both are put back when the call
    is over, and the output goes through
    [wrap_outputs_maintaining_identity] together with the unwrapped and the
    original operands and the level, whose result is returned.  An
    exception of the redispatch propagates after both are put back. *)
Theorem Generated_forward_redispatches getattr Function_apply fuel interpreter f operands w :
  let lvl := level interpreter in
  let unwrapped_operands :=
    map (pytree.tree_map_only is_Tensor (λ x, _unwrap_for_grad x lvl)) operands in
  pytree.spec_of (Node PyTuple unwrapped_operands) = pytree.spec_of (Node PyTuple operands)
  ∧ pytree.leaves (Node PyTuple unwrapped_operands)
    = map (λ o, if is_Tensor o then _unwrap_for_grad o lvl else o)
          (pytree.leaves (Node PyTuple operands))
  ∧ forward (Generated getattr (custom_function_call getattr Function_apply fuel)
               interpreter lvl f) operands w
    = match dynamic_layer_stack w with
      | [] => Raise (RuntimeError "pop_dynamic_layer_stack: empty stack") w
      | top :: rest =>
          match custom_function_call getattr Function_apply fuel
                  (f :: unwrapped_operands) [] (set_stack rest (set_grad true w)) with
          | Ok output w1 =>
              wrap_outputs_maintaining_identity
                output (Node PyTuple unwrapped_operands) (Node PyTuple operands) lvl
                (set_grad (grad_enabled w) (set_stack (top :: dynamic_layer_stack w1) w1))
          | Raise e w1 =>
              Raise e (set_grad (grad_enabled w) (set_stack (top :: dynamic_layer_stack w1) w1))
          | OutOfFuel => OutOfFuel
          end
      end.
Proof.
  intros lvl unwrapped_operands. split; [| split].
  - apply (tree_map_only_spec is_Tensor _ (Node PyTuple operands)).
  - apply (tree_map_only_leaves is_Tensor _ (Node PyTuple operands)).
  - apply Generated_forward_eq.
Qed.

(** C6.  [setup_context] and [backward] of the generated class are the
    autograd.Function's own: on the same arguments they give the same
    value or exception and the same final state. *)
Theorem Generated_delegates getattr (cfc : method) interpreter f ctx outputs operands grads w :
  setup_context (Generated getattr cfc interpreter (level interpreter) f) ctx outputs operands w
  = call_method getattr f "setup_context" (ctx :: outputs :: operands) [] w
  ∧ backward (Generated getattr cfc interpreter (level interpreter) f) ctx grads w
    = call_method getattr f "backward" (ctx :: grads) [] w.
Proof.
  split; [reflexivity |].
  cbn [backward Generated]. unfold mbind, M_bind.
  by destruct (call_method _ _ _ _ _ _).
Qed.

(** C7.  The grad rule applies the generated class to the operands it was
    called with (the original ones, not unwrapped ones), in the state where
    the autograd-function flag is set, and returns the output of that
    application as it is; the flag is put back to its previous value when
    the application returns or raises. *)
Theorem custom_function_call_grad_applies getattr Function_apply (cfc : method)
    interpreter f operands w :
  custom_function_call_grad getattr Function_apply cfc interpreter f operands w
  = match Function_apply (Generated getattr cfc interpreter (level interpreter) f)
            operands (set_allowed true w) with
    | Ok flat_out w1 => Ok flat_out (set_allowed (autograd_function_allowed w) w1)
    | Raise e w1 => Raise e (set_allowed (autograd_function_allowed w) w1)
    | OutOfFuel => OutOfFuel
    end.
Proof.
  unfold custom_function_call_grad, enable_autograd_function, with_, mbind, M_bind.
  cbn [autograd_function_allowed set_allowed].
  by destruct (Function_apply _ _ _).
Qed.

(** ** Identity of the outputs *)

Lemma lookup_zip_Some {A B} (l : list A) (k : list B) i a b :
  zip l k !! i = Some (a, b) ↔ l !! i = Some a ∧ k !! i = Some b.
Proof.
  rewrite lookup_zip_with_Some. split.
  - intros (a' & b' & Heq & Ha & Hb). by injection Heq as -> ->.
  - intros [Ha Hb]. eauto.
Qed.

(** C2.  For a tensor at position [i] of the flattened outputs: when its
    identity is that of a flattened unwrapped input that has a co-indexed
    original input, the element emitted at position [i] is the original
    input object co-indexed with an unwrapped input of that identity, the
    object itself and no new wrapper; when no such unwrapped input has its
    identity, the element emitted is a wrapper of the tensor at [level]
    whose identity was allocated during the call. *)
Theorem wrap_outputs_maintains_identity outputs unwrapped_inputs orig_inputs lvl w i o :
  pytree.leaves outputs !! i = Some o →
  is_Tensor o = true →
  ∃ t' w',
    wrap_outputs_maintaining_identity outputs unwrapped_inputs orig_inputs lvl w = Ok t' w'
    ∧ ((∃ j u, pytree.leaves unwrapped_inputs !! j = Some u ∧ oid u = oid o
               ∧ is_Some (pytree.leaves orig_inputs !! j)) →
       ∃ j u orig, pytree.leaves unwrapped_inputs !! j = Some u ∧ oid u = oid o
                   ∧ pytree.leaves orig_inputs !! j = Some orig
                   ∧ pytree.leaves t' !! i = Some orig)
    ∧ ((∀ j u, pytree.leaves unwrapped_inputs !! j = Some u →
               is_Some (pytree.leaves orig_inputs !! j) → oid u ≠ oid o) →
       ∃ n, (next_id w ≤ n < next_id w')%nat
            ∧ pytree.leaves t' !! i = Some (GradTensorWrapper n lvl o)).
Proof.
  intros Hi Ho.
  destruct (wrap_outputs_run outputs unwrapped_inputs orig_inputs lvl w)
    as (t' & w' & Hrun & _ & _ & _ & _ & Hel).
  exists t', w'. split; [done |].
  specialize (Hel i o Hi). rewrite Ho in Hel.
  destruct (dict_by_id _ !! oid o) as [orig |] eqn:Hd.
  - split.
    + intros _. apply dict_by_id_Some in Hd as (j & u & Hj & Hu & _).
      apply lookup_zip_Some in Hj as [Hju Hjo]. by exists j, u, orig.
    + intros Hno. exfalso.
      apply dict_by_id_Some in Hd as (j & u & Hj & Hu & _).
      apply lookup_zip_Some in Hj as [Hju Hjo]. by apply (Hno j u).
  - split; [| by intros _].
    intros (j & u & Hju & Hu & [orig Hjo]). exfalso.
    rewrite dict_by_id_None in Hd. apply (Hd j (u, orig)); [| done].
    by apply lookup_zip_Some.
Qed.

Lemma wrap_outputs_maintains_identity_witness :
  ∃ t' w',
    wrap_outputs_maintaining_identity
      (Node PyTuple [Leaf Demo.x; Leaf Demo.y])
      (Node PyTuple [Leaf Demo.x]) (Node PyTuple [Leaf Demo.wx]) 1 Demo.idle = Ok t' w'
    ∧ pytree.leaves t' !! 0%nat = Some Demo.wx.
Proof.
  destruct (wrap_outputs_maintains_identity
              (Node PyTuple [Leaf Demo.x; Leaf Demo.y])
              (Node PyTuple [Leaf Demo.x]) (Node PyTuple [Leaf Demo.wx]) 1 Demo.idle
              0%nat Demo.x eq_refl eq_refl) as (t' & w' & Hrun & Hsame & _).
  exists t', w'. split; [exact Hrun |].
  destruct Hsame as (j & u & orig & Hu & _ & Horig & Hout).
  - exists 0%nat, Demo.x. repeat split. by exists Demo.wx.
  - destruct j as [| j]; [| destruct j; discriminate].
    cbn in Horig. injection Horig as <-. exact Hout.
Defined.

(** C5.  A non-tensor leaf at a structural position of the operands is at
    the same position, the same object, after the unwrap step, and a
    non-tensor leaf at a structural position of the outputs is at the same
    position, the same object, in the tree the output wrapper returns,
    which has the structure of the outputs. *)
Theorem non_tensor_leaves_pass_through
    lvl operands outputs unwrapped_inputs orig_inputs w path o :
  is_Tensor o = false →
  (pytree.subtree path (Node PyTuple operands) = Some (Leaf o) →
   pytree.subtree path
     (Node PyTuple
        (map (pytree.tree_map_only is_Tensor (λ x, _unwrap_for_grad x lvl)) operands))
   = Some (Leaf o))
  ∧ (pytree.subtree path outputs = Some (Leaf o) →
     ∃ t' w',
       wrap_outputs_maintaining_identity outputs unwrapped_inputs orig_inputs lvl w
       = Ok t' w'
       ∧ pytree.spec_of t' = pytree.spec_of outputs
       ∧ pytree.subtree path t' = Some (Leaf o)).
Proof.
  intros Ho.
  set (R := λ a b : obj, is_Tensor a = false → b = a).
  split.
  - intros Hp.
    change (Node PyTuple (map ?f operands))
      with (pytree.tree_map_only is_Tensor (λ x, _unwrap_for_grad x lvl)
              (Node PyTuple operands)).
    destruct (subtree_leaf_related R path (Node PyTuple operands)
                (pytree.tree_map_only is_Tensor (λ x, _unwrap_for_grad x lvl)
                   (Node PyTuple operands)) o) as (o' & Hp' & HR); [| | done |].
    + by rewrite tree_map_only_spec.
    + rewrite tree_map_only_leaves. apply Forall2_fmap_r, Forall_Forall2_diag.
      apply Forall_forall. intros a _ Ha. by rewrite Ha.
    + by rewrite Hp', (HR Ho).
  - intros Hp.
    destruct (wrap_outputs_run outputs unwrapped_inputs orig_inputs lvl w)
      as (t' & w' & Hrun & Hspec & Hlen & _ & _ & Hel).
    exists t', w'. split; [done |]. split; [done |].
    destruct (subtree_leaf_related R path outputs t' o) as (o' & Hp' & HR); [| | done |].
    + done.
    + apply Forall2_same_length_lookup. split; [done |].
      intros k a b Ha Hb Hnt. specialize (Hel k a Ha). rewrite Hnt in Hel. congruence.
    + by rewrite Hp', (HR Ho).
Qed.

Lemma non_tensor_leaves_pass_through_witness :
  pytree.subtree [1%nat; 0%nat]
    (Node PyTuple
       (map (pytree.tree_map_only is_Tensor (λ x, _unwrap_for_grad x 1))
          [Leaf Demo.wx; Node PyList [Leaf Demo.n; Leaf Demo.wx']]))
  = Some (Leaf Demo.n).
Proof.
  apply (non_tensor_leaves_pass_through 1
           [Leaf Demo.wx; Node PyList [Leaf Demo.n; Leaf Demo.wx']]
           (Leaf Demo.n) (Leaf Demo.x) (Leaf Demo.wx) Demo.idle
           [1%nat; 0%nat] Demo.n); reflexivity.
Defined.

(** C10.  The dict is filled pair by pair, so when the identity of an
    unwrapped input occurs at several positions, it is bound to the
    original input at the last of them (among the positions that have an
    original input); a tensor output of that identity is replaced by that
    original input. *)
Theorem identity_dict_last_wins outputs unwrapped_inputs orig_inputs lvl w j u orig :
  pytree.leaves unwrapped_inputs !! j = Some u →
  pytree.leaves orig_inputs !! j = Some orig →
  (∀ j' u', (j < j')%nat → pytree.leaves unwrapped_inputs !! j' = Some u' →
            is_Some (pytree.leaves orig_inputs !! j') → oid u' ≠ oid u) →
  dict_by_id (zip (pytree.leaves unwrapped_inputs) (pytree.leaves orig_inputs)) !! oid u
  = Some orig
  ∧ ∃ t' w',
      wrap_outputs_maintaining_identity outputs unwrapped_inputs orig_inputs lvl w
      = Ok t' w'
      ∧ ∀ i o, pytree.leaves outputs !! i = Some o → is_Tensor o = true →
               oid o = oid u → pytree.leaves t' !! i = Some orig.
Proof.
  intros Hu Horig Hlast.
  assert (Hd : dict_by_id (zip (pytree.leaves unwrapped_inputs)
                               (pytree.leaves orig_inputs)) !! oid u = Some orig).
  { apply (dict_by_id_last _ j); [by apply lookup_zip_Some |].
    intros j' [u' orig'] Hlt Hj'. apply lookup_zip_Some in Hj' as [Hu' Ho'].
    cbn. by apply (Hlast j' u' Hlt Hu'). }
  split; [done |].
  destruct (wrap_outputs_run outputs unwrapped_inputs orig_inputs lvl w)
    as (t' & w' & Hrun & _ & _ & _ & _ & Hel).
  exists t', w'. split; [done |].
  intros i o Hi Ho Hid. specialize (Hel i o Hi). by rewrite Ho, Hid, Hd in Hel.
Qed.

Lemma identity_dict_last_wins_witness :
  Demo.wx' ≠ Demo.wx
  ∧ ∃ t' w',
      wrap_outputs_maintaining_identity
        (Node PyList [Leaf Demo.x])
        (Node PyTuple [Leaf Demo.x; Leaf Demo.x])
        (Node PyTuple [Leaf Demo.wx; Leaf Demo.wx']) 1 Demo.idle = Ok t' w'
      ∧ pytree.leaves t' !! 0%nat = Some Demo.wx'.
Proof.
  split; [discriminate |].
  destruct (identity_dict_last_wins
              (Node PyList [Leaf Demo.x])
              (Node PyTuple [Leaf Demo.x; Leaf Demo.x])
              (Node PyTuple [Leaf Demo.wx; Leaf Demo.wx']) 1 Demo.idle
              1%nat Demo.x Demo.wx' eq_refl eq_refl) as (_ & t' & w' & Hrun & Hout).
  - intros [| [| j']] u' Hlt Hu' _; [lia | lia | discriminate].
  - exists t', w'. split; [exact Hrun |]. by apply (Hout 0%nat Demo.x).
Defined.

(** ** The definitions at work *)

(** One Grad layer: the autograd.Function returns its first operand, the
    operator returns the caller's own wrapped tensor, and stack, grad mode
    and flag are as before. *)
Example one_grad_layer_returns_the_input :
  custom_function_call Demo.getattr Demo.Function_apply 1
    [Demo.MyFn; Leaf Demo.wx; Leaf Demo.n] [] (Demo.under Grad)
  = Ok (Leaf Demo.wx) (Demo.under Grad).
Proof. vm_compute. reflexivity. Qed.

(** Without budget for the redispatch the model gives no answer. *)
Example grad_layer_needs_fuel :
  custom_function_call Demo.getattr Demo.Function_apply 0
    [Demo.MyFn; Leaf Demo.wx; Leaf Demo.n] [] (Demo.under Grad)
  = OutOfFuel.
Proof. vm_compute. reflexivity. Qed.

(** A produced tensor is wrapped with a new identity, a non-tensor is
    kept, a returned input is exchanged for the original input. *)
Example wrap_outputs_three_kinds :
  wrap_outputs_maintaining_identity
    (Node PyList [Leaf Demo.x; Leaf Demo.n; Leaf Demo.y])
    (Node PyTuple [Leaf Demo.x]) (Node PyTuple [Leaf Demo.wx]) 1 Demo.idle
  = Ok (Node PyList [Leaf Demo.wx; Leaf Demo.n; Leaf (GradTensorWrapper 10 1 Demo.y)])
       (set_next_id 11 Demo.idle).
Proof. vm_compute. reflexivity. Qed.

(** A keyword that names the rule's second parameter is bound to it when
    no positional argument is. *)
Example keyword_names_the_function :
  custom_function_call Demo.getattr Demo.Function_apply 1
    [] [("autograd_function", Demo.MyFn)] (Demo.under Vmap)
  = Raise (RuntimeError "NYI: vmap rule for custom_function_call") (Demo.under Vmap).
Proof. vm_compute. reflexivity. Qed.

(** * Further properties of the code *)

(** ** The allocator under the output wrapper *)

Lemma length_filter_take_lt {A} (P : A → bool) (xs : list A) i j x :
  (i < j)%nat → xs !! i = Some x → P x = true →
  (length (List.filter P (take i xs)) < length (List.filter P (take j xs)))%nat.
Proof.
  intros Hlt Hx HP.
  replace j with (i + S (j - S i))%nat by lia.
  rewrite <- take_take_drop, List.filter_app, length_app.
  rewrite (drop_S _ _ _ Hx). cbn. rewrite HP. cbn. lia.
Qed.

(** The loop again, with the identities it hands out: the [k]-th call of
    [_wrap_for_grad] draws the [k]-th identity after the allocator's. *)
Lemma wrap_loop_ids (d : gmap ident obj) lvl body :
  body = (λ result output,
           if negb (is_Tensor output) then mret (result ++ [output])
           else
             match d !! oid output with
             | Some orig => mret (result ++ [orig])
             | None =>
                 wrapped ← _wrap_for_grad output lvl;
                 mret (result ++ [wrapped])
             end) →
  ∀ xs acc w,
    ∃ rs,
      for_ xs body acc w
      = Ok (acc ++ rs)
           (set_next_id (next_id w + length (List.filter (needs_wrapper d) xs)) w)
      ∧ length rs = length xs
      ∧ ∀ i o, xs !! i = Some o → needs_wrapper d o = true →
          rs !! i = Some (GradTensorWrapper
                            (next_id w + length (List.filter (needs_wrapper d) (take i xs)))
                            lvl o).
Proof.
  intros Hbody xs. induction xs as [| x xs IH]; intros acc w.
  - exists []. rewrite app_nil_r. cbn. rewrite Nat.add_0_r.
    split; [by destruct w | done].
  - rewrite for_cons.
    assert (Hb : body acc x w
                 = if needs_wrapper d x
                   then Ok (acc ++ [GradTensorWrapper (next_id w) lvl x])
                           (set_next_id (S (next_id w)) w)
                   else Ok (acc ++ [match is_Tensor x, d !! oid x with
                                    | true, Some orig => orig
                                    | _, _ => x
                                    end]) w).
    { rewrite Hbody. unfold needs_wrapper.
      destruct (is_Tensor x); cbn [negb andb]; [| reflexivity].
      destruct (d !! oid x); reflexivity. }
    rewrite Hb. clear Hb. cbn [List.filter].
    destruct (needs_wrapper d x) eqn:Hx.
    + destruct (IH (acc ++ [GradTensorWrapper (next_id w) lvl x])
                  (set_next_id (S (next_id w)) w)) as (rs & Hrun & Hlen & Hrs).
      exists (GradTensorWrapper (next_id w) lvl x :: rs).
      rewrite Hrun, <- app_assoc. cbn.
      split; [by rewrite Nat.add_succ_r |]. split; [by rewrite Hlen |].
      intros [| i] o Ho Hn; cbn in Ho.
      * injection Ho as <-. cbn. by rewrite Nat.add_0_r.
      * specialize (Hrs i o Ho Hn). cbn in Hrs |- *. rewrite Hx. cbn.
        rewrite Nat.add_succ_r. exact Hrs.
    + destruct (IH (acc ++ [match is_Tensor x, d !! oid x with
                            | true, Some orig => orig
                            | _, _ => x
                            end]) w) as (rs & Hrun & Hlen & Hrs).
      eexists (_ :: rs). rewrite Hrun, <- app_assoc. cbn.
      split; [done |]. split; [by rewrite Hlen |].
      intros [| i] o Ho Hn; cbn in Ho.
      * injection Ho as <-. congruence.
      * cbn. rewrite Hx. by apply Hrs.
Qed.

Lemma wrap_outputs_run_ids outputs unwrapped_inputs orig_inputs lvl w :
  let d := dict_by_id (zip (pytree.leaves unwrapped_inputs) (pytree.leaves orig_inputs)) in
  ∃ t',
    wrap_outputs_maintaining_identity outputs unwrapped_inputs orig_inputs lvl w
    = Ok t' (set_next_id
               (next_id w + length (List.filter (needs_wrapper d) (pytree.leaves outputs))) w)
    ∧ pytree.spec_of t' = pytree.spec_of outputs
    ∧ ∀ i o, pytree.leaves outputs !! i = Some o → needs_wrapper d o = true →
        pytree.leaves t' !! i
        = Some (GradTensorWrapper
                  (next_id w
                   + length (List.filter (needs_wrapper d) (take i (pytree.leaves outputs))))
                  lvl o).
Proof.
  intros d. unfold wrap_outputs_maintaining_identity, pytree.tree_flatten.
  fold d.
  match goal with |- context [for_ _ ?b _] => set (body := b) end.
  destruct (wrap_loop_ids d lvl body eq_refl (pytree.leaves outputs) [] w)
    as (rs & Hrun & Hlen & Hrs).
  cbn [app] in Hrun.
  destruct (tree_unflatten_spec (pytree.spec_of outputs) rs) as (t' & Hun & Hsp & Hl).
  { by rewrite Hlen, length_leaves. }
  exists t'. unfold mbind, M_bind. rewrite Hrun.
  unfold tree_unflatten. rewrite Hun, Hl. done.
Qed.



(** X3.  Two output positions that both get a new wrapper get wrappers of
    different identities, neither of them an identity that was in use
    before the call; this holds also when the two positions hold the same
    tensor. *)
Theorem fresh_wrappers_are_distinct outputs unwrapped_inputs orig_inputs lvl w i j oi oj :
  i ≠ j →
  pytree.leaves outputs !! i = Some oi →
  pytree.leaves outputs !! j = Some oj →
  needs_wrapper (dict_by_id (zip (pytree.leaves unwrapped_inputs)
                                 (pytree.leaves orig_inputs))) oi = true →
  needs_wrapper (dict_by_id (zip (pytree.leaves unwrapped_inputs)
                                 (pytree.leaves orig_inputs))) oj = true →
  ∃ t' w' ni nj,
    wrap_outputs_maintaining_identity outputs unwrapped_inputs orig_inputs lvl w = Ok t' w'
    ∧ pytree.leaves t' !! i = Some (GradTensorWrapper ni lvl oi)
    ∧ pytree.leaves t' !! j = Some (GradTensorWrapper nj lvl oj)
    ∧ ni ≠ nj
    ∧ (next_id w ≤ ni < next_id w')%nat
    ∧ (next_id w ≤ nj < next_id w')%nat.
Proof.
  intros Hij Hi Hj Hni Hnj.
  destruct (wrap_outputs_run_ids outputs unwrapped_inputs orig_inputs lvl w)
    as (t' & Hrun & _ & Hel).
  set (d := dict_by_id _) in *. set (xs := pytree.leaves outputs) in *.
  assert (Hbound : ∀ k o, xs !! k = Some o → needs_wrapper d o = true →
            (length (List.filter (needs_wrapper d) (take k xs))
             < length (List.filter (needs_wrapper d) xs))%nat).
  { intros k o Hk Hn.
    rewrite <- (take_ge xs (S (length xs))) at 2 by lia.
    apply (length_filter_take_lt _ _ _ _ o); [| done | done].
    apply lookup_lt_Some in Hk. lia. }
  eexists t', _, _, _. split; [exact Hrun |].
  split; [exact (Hel i oi Hi Hni) |]. split; [exact (Hel j oj Hj Hnj) |].
  pose proof (Hbound i oi Hi Hni). pose proof (Hbound j oj Hj Hnj).
  cbn [next_id set_next_id]. split; [| lia].
  destruct (Nat.lt_trichotomy i j) as [Hlt | [-> | Hgt]]; [| done |].
  - pose proof (length_filter_take_lt (needs_wrapper d) xs i j oi Hlt Hi Hni). lia.
  - pose proof (length_filter_take_lt (needs_wrapper d) xs j i oj Hgt Hj Hnj). lia.
Qed.

Lemma fresh_wrappers_are_distinct_witness :
  ∃ t' w' ni nj,
    wrap_outputs_maintaining_identity
      (Node PyTuple [Leaf Demo.y; Leaf Demo.y])
      (Node PyTuple [Leaf Demo.x]) (Node PyTuple [Leaf Demo.wx]) 1 Demo.idle = Ok t' w'
    ∧ pytree.leaves t' !! 0%nat = Some (GradTensorWrapper ni 1 Demo.y)
    ∧ pytree.leaves t' !! 1%nat = Some (GradTensorWrapper nj 1 Demo.y)
    ∧ ni ≠ nj
    ∧ (next_id Demo.idle ≤ ni < next_id w')%nat
    ∧ (next_id Demo.idle ≤ nj < next_id w')%nat.
Proof.
  apply (fresh_wrappers_are_distinct
           (Node PyTuple [Leaf Demo.y; Leaf Demo.y])
           (Node PyTuple [Leaf Demo.x]) (Node PyTuple [Leaf Demo.wx]) 1 Demo.idle
           0%nat 1%nat Demo.y Demo.y); [discriminate | reflexivity ..].
Defined.

(** ** Unwrapping and wrapping back *)

Lemma tree_unflatten_flatten t :
  pytree.tree_unflatten (pytree.leaves t) (pytree.spec_of t) = Some t.
Proof.
  induction t as [o | ty cs IH] using PyTree_forall_ind; [reflexivity |].
  assert (Hlen : length (pytree.leaves (Node ty cs))
                 = pytree.num_leaves (NodeSpec ty (map pytree.spec_of cs)))
    by apply (length_leaves (Node ty cs)).
  change (pytree.spec_of (Node ty cs)) with (NodeSpec ty (map pytree.spec_of cs)).
  cbn [pytree.tree_unflatten].
  rewrite (proj2 (Nat.eqb_eq _ _) Hlen). cbn [negb]. clear Hlen.
  match goal with |- context [fmap (Node ty) (?f _ _)] => set (children := f) end.
  assert (Hch : children (map pytree.spec_of cs) (pytree.leaves (Node ty cs)) = Some cs).
  { cbn [pytree.leaves]. induction IH as [| c cs Hc _ IHcs]; [reflexivity |].
    cbn [map List.concat children]. fold children.
    rewrite <- length_leaves, take_app_length, drop_app_length, Hc, IHcs.
    reflexivity. }
  by rewrite Hch.
Qed.

(** A tree is determined by its structure and its leaves. *)
Lemma spec_leaves_inj t t' :
  pytree.spec_of t = pytree.spec_of t' → pytree.leaves t = pytree.leaves t' → t = t'.
Proof.
  intros Hs Hl. pose proof (tree_unflatten_flatten t) as H.
  rewrite Hs, Hl, tree_unflatten_flatten in H. by injection H.
Qed.

Lemma filter_nil_Forall {A} (P : A → bool) (xs : list A) :
  Forall (λ x, P x = false) xs → List.filter P xs = [].
Proof.
  induction 1 as [| x xs Hx _ IH]; [reflexivity |]. cbn. by rewrite Hx.
Qed.

(** X4.  Round trip: when the operands' leaves unwrap to tensors, and two
    leaves that unwrap to the same identity are the same object, handing
    the unwrapped operands back as the output gives the operands
    themselves, and nothing is allocated. *)
Theorem unwrap_rewrap_round_trip lvl t w :
  let unwrapped := pytree.tree_map_only is_Tensor (λ x, _unwrap_for_grad x lvl) t in
  (∀ o, o ∈ pytree.leaves t → is_Tensor o = true → is_Tensor (_unwrap_for_grad o lvl) = true) →
  (∀ i j oi oj, pytree.leaves t !! i = Some oi → pytree.leaves t !! j = Some oj →
                oid (unwrap_leaf lvl oi) = oid (unwrap_leaf lvl oj) → oi = oj) →
  wrap_outputs_maintaining_identity unwrapped unwrapped t lvl w = Ok t w.
Proof.
  intros unwrapped Hten Hinj.
  assert (Hul : pytree.leaves unwrapped = unwrap_leaf lvl <$> pytree.leaves t)
    by apply tree_map_only_leaves.
  set (d := dict_by_id (zip (pytree.leaves unwrapped) (pytree.leaves t))).
  assert (Hd : ∀ i o, pytree.leaves t !! i = Some o → d !! oid (unwrap_leaf lvl o) = Some o).
  { intros i o Hi.
    assert (Hz : zip (pytree.leaves unwrapped) (pytree.leaves t) !! i
                 = Some (unwrap_leaf lvl o, o)).
    { apply lookup_zip_Some. split; [| done]. by rewrite Hul, list_lookup_fmap, Hi. }
    destruct (d !! oid (unwrap_leaf lvl o)) as [r |] eqn:Hr.
    - apply dict_by_id_Some in Hr as (j & u' & Hj & Heq & _).
      apply lookup_zip_Some in Hj as [Hu' Ho'].
      rewrite Hul, list_lookup_fmap, Ho' in Hu'. injection Hu' as <-.
      f_equal. by apply (Hinj j i r o).
    - exfalso. pose proof (proj1 (dict_by_id_None _ _) Hr) as Hr'.
      by apply (Hr' i _ Hz). }
  destruct (wrap_outputs_run unwrapped unwrapped t lvl w)
    as (t' & w' & Hrun & Hspec & Hlen & _ & _ & Hel).
  destruct (wrap_outputs_run_ids unwrapped unwrapped t lvl w) as (t'' & Hrun' & _).
  fold d in Hel, Hrun'. rewrite Hrun. f_equal.
  - apply spec_leaves_inj; [rewrite Hspec; apply tree_map_only_spec |].
    apply list_eq_same_length with (length (pytree.leaves t')); [| done |].
    { by rewrite Hlen, Hul, length_fmap. }
    intros i a b _ Ha Hb.
    specialize (Hel i (unwrap_leaf lvl b)).
    rewrite Hul, list_lookup_fmap, Hb in Hel. specialize (Hel eq_refl).
    rewrite (Hd i b Hb) in Hel.
    destruct (is_Tensor (unwrap_leaf lvl b)) eqn:Hub; [congruence |].
    assert (unwrap_leaf lvl b = b) as Hsame; [| congruence].
    unfold unwrap_leaf in *. destruct (is_Tensor b) eqn:Hb'; [| done].
    rewrite Hten in Hub; [done | by eapply list_elem_of_lookup_2 | done].
  - rewrite Hrun in Hrun'. injection Hrun' as _ ->.
    rewrite filter_nil_Forall; [cbn; rewrite Nat.add_0_r; by destruct w |].
    apply Forall_forall. intros u Hu. rewrite Hul in Hu.
    apply list_elem_of_fmap in Hu as (o & -> & Ho).
    apply list_elem_of_lookup in Ho as [i Hi].
    unfold needs_wrapper. rewrite (Hd i o Hi). by rewrite andb_false_r.
Qed.

Lemma unwrap_rewrap_round_trip_witness :
  wrap_outputs_maintaining_identity
    (pytree.tree_map_only is_Tensor (λ x, _unwrap_for_grad x 1)
       (Node PyTuple [Leaf Demo.wx; Node PyList [Leaf Demo.n; Leaf Demo.y]]))
    (pytree.tree_map_only is_Tensor (λ x, _unwrap_for_grad x 1)
       (Node PyTuple [Leaf Demo.wx; Node PyList [Leaf Demo.n; Leaf Demo.y]]))
    (Node PyTuple [Leaf Demo.wx; Node PyList [Leaf Demo.n; Leaf Demo.y]]) 1 Demo.idle
  = Ok (Node PyTuple [Leaf Demo.wx; Node PyList [Leaf Demo.n; Leaf Demo.y]]) Demo.idle.
Proof.
  apply (unwrap_rewrap_round_trip 1
           (Node PyTuple [Leaf Demo.wx; Node PyList [Leaf Demo.n; Leaf Demo.y]]) Demo.idle).
  - intros o Ho Ht. apply list_elem_of_lookup in Ho as [[| [| [| i]]] Hi];
      cbn in Hi; try discriminate; injection Hi as <-;
      first [reflexivity | discriminate Ht].
  - intros [| [| [| i]]] [| [| [| j]]] oi oj Hi Hj; cbn in Hi, Hj;
      try discriminate; injection Hi as <-; injection Hj as <-;
      cbn; intros; try reflexivity; discriminate.
Defined.

(** ** The operator when no transform is active *)

Lemma custom_function_call_idle getattr Function_apply fuel args kw w :
  dynamic_layer_stack w = [] →
  custom_function_call getattr Function_apply fuel args kw w
  = match args with
    | [] => Raise (IndexError "tuple index out of range") w
    | autograd_function :: rest => call_method getattr autograd_function "apply" rest kw w
    end.
Proof.
  intros Hst. rewrite custom_function_call_unfold.
  unfold CustomFunctionPyOperator_call, mbind, M_bind, _are_functorch_transforms_active.
  rewrite Hst. by destruct args.
Qed.

(** X1.  With no transform active, a call without positional arguments
    fails on [args[0]] with an IndexError, and a call whose first argument
    has no [apply] attribute fails with an AttributeError; the state is
    untouched in both cases and the keyword arguments play no part. *)
Theorem bypass_errors getattr Function_apply fuel kw w :
  dynamic_layer_stack w = [] →
  custom_function_call getattr Function_apply fuel [] kw w
  = Raise (IndexError "tuple index out of range") w
  ∧ ∀ f x, getattr f "apply" = None →
           custom_function_call getattr Function_apply fuel (f :: x) kw w
           = Raise (AttributeError "apply") w.
Proof.
  intros Hst. split.
  - by rewrite custom_function_call_idle.
  - intros f x Hf. rewrite custom_function_call_idle by done.
    unfold call_method. by rewrite Hf.
Qed.

Lemma bypass_errors_witness :
  custom_function_call Demo.getattr Demo.Function_apply 0 [] [("k", Leaf Demo.n)] Demo.idle
  = Raise (IndexError "tuple index out of range") Demo.idle
  ∧ custom_function_call Demo.getattr Demo.Function_apply 0
      [Leaf Demo.x; Leaf Demo.n] [("k", Leaf Demo.n)] Demo.idle
    = Raise (AttributeError "apply") Demo.idle.
Proof.
  destruct (bypass_errors Demo.getattr Demo.Function_apply 0 [("k", Leaf Demo.n)]
              Demo.idle eq_refl) as [Hempty Hattr].
  split; [exact Hempty |]. apply Hattr. reflexivity.
Defined.

(** ** The forward of the generated class, end to end *)

(** X5.  At the innermost layer (exactly one layer on the stack) the
    forward of the generated class calls the autograd.Function's [apply]
    itself on the unwrapped operands, with grad mode on and no layer on
    the stack, whatever budget is left; the layer and grad mode are put
    back before the output is wrapped or the exception propagates. *)
Theorem forward_innermost getattr Function_apply fuel interpreter f operands w top :
  let lvl := level interpreter in
  let unwrapped_operands :=
    map (pytree.tree_map_only is_Tensor (λ x, _unwrap_for_grad x lvl)) operands in
  dynamic_layer_stack w = [top] →
  forward (Generated getattr (custom_function_call getattr Function_apply fuel)
             interpreter lvl f) operands w
  = match call_method getattr f "apply" unwrapped_operands []
            (set_stack [] (set_grad true w)) with
    | Ok output w1 =>
        wrap_outputs_maintaining_identity
          output (Node PyTuple unwrapped_operands) (Node PyTuple operands) lvl
          (set_grad (grad_enabled w) (set_stack (top :: dynamic_layer_stack w1) w1))
    | Raise e w1 =>
        Raise e (set_grad (grad_enabled w) (set_stack (top :: dynamic_layer_stack w1) w1))
    | OutOfFuel => OutOfFuel
    end.
Proof.
  intros lvl unwrapped_operands Hst.
  rewrite Generated_forward_eq. rewrite Hst.
  by rewrite custom_function_call_idle.
Qed.

Lemma forward_innermost_witness :
  forward (Generated Demo.getattr
             (custom_function_call Demo.getattr Demo.Function_apply 0)
             (mkInterpreter Grad 1) 1 Demo.MyFn)
    [Leaf Demo.wx; Leaf Demo.n] (Demo.under Grad)
  = Ok (Leaf Demo.wx) (Demo.under Grad).
Proof.
  etrans; [apply (forward_innermost Demo.getattr Demo.Function_apply 0
                    (mkInterpreter Grad 1) Demo.MyFn [Leaf Demo.wx; Leaf Demo.n]
                    (Demo.under Grad) (mkInterpreter Grad 1)); reflexivity |].
  reflexivity.
Defined.

(** X6.  Identity through the forward: when the redispatch returns a
    tensor whose identity is that of an unwrapped operand leaf, the forward
    returns the caller's own operand leaf at the last position that
    unwraps to this identity, and allocates nothing. *)
Theorem forward_returns_the_callers_object
    getattr Function_apply fuel interpreter f operands w top rest u w1 j orig :
  let lvl := level interpreter in
  let unwrapped_operands :=
    map (pytree.tree_map_only is_Tensor (λ x, _unwrap_for_grad x lvl)) operands in
  dynamic_layer_stack w = top :: rest →
  custom_function_call getattr Function_apply fuel (f :: unwrapped_operands) []
    (set_stack rest (set_grad true w)) = Ok (Leaf u) w1 →
  is_Tensor u = true →
  pytree.leaves (Node PyTuple operands) !! j = Some orig →
  oid (unwrap_leaf lvl orig) = oid u →
  (∀ j' o', (j < j')%nat → pytree.leaves (Node PyTuple operands) !! j' = Some o' →
            oid (unwrap_leaf lvl o') ≠ oid u) →
  forward (Generated getattr (custom_function_call getattr Function_apply fuel)
             interpreter lvl f) operands w
  = Ok (Leaf orig)
       (set_grad (grad_enabled w) (set_stack (top :: dynamic_layer_stack w1) w1)).
Proof.
  intros lvl unwrapped_operands Hst Hcall Hu Hj Hid Hlast.
  rewrite Generated_forward_eq. fold lvl unwrapped_operands. rewrite Hst, Hcall.
  set (W := set_grad _ _).
  assert (Hul : pytree.leaves (Node PyTuple unwrapped_operands)
                = unwrap_leaf lvl <$> pytree.leaves (Node PyTuple operands))
    by apply (tree_map_only_leaves is_Tensor _ (Node PyTuple operands)).
  set (d := dict_by_id (zip (pytree.leaves (Node PyTuple unwrapped_operands))
                            (pytree.leaves (Node PyTuple operands)))).
  assert (Hd : d !! oid u = Some orig).
  { rewrite <- Hid. apply (dict_by_id_last _ j).
    - apply lookup_zip_Some. split; [| done]. by rewrite Hul, list_lookup_fmap, Hj.
    - intros j' [u' o'] Hlt Hj'. apply lookup_zip_Some in Hj' as [Hu' Ho'].
      rewrite Hul, list_lookup_fmap, Ho' in Hu'. injection Hu' as <-.
      cbn. rewrite Hid. by apply (Hlast j' o'). }
  destruct (wrap_outputs_run (Leaf u) (Node PyTuple unwrapped_operands)
              (Node PyTuple operands) lvl W)
    as (t' & w' & Hrun & Hspec & _ & _ & _ & Hel).
  destruct (wrap_outputs_run_ids (Leaf u) (Node PyTuple unwrapped_operands)
              (Node PyTuple operands) lvl W) as (t'' & Hrun' & _).
  fold d in Hel, Hrun'. rewrite Hrun. rewrite Hrun in Hrun'. injection Hrun' as _ ->.
  specialize (Hel 0%nat u eq_refl). rewrite Hu, Hd in Hel.
  destruct t' as [o | ty cs]; [| done]. cbn in Hel. injection Hel as ->.
  f_equal. change (pytree.leaves (Leaf u)) with [u]. cbn [List.filter].
  assert (needs_wrapper d u = false) as ->
    by (unfold needs_wrapper; by rewrite Hu, Hd).
  cbn [length]. rewrite Nat.add_0_r. subst W. by destruct w1.
Qed.

Lemma forward_returns_the_callers_object_witness :
  forward (Generated Demo.getattr
             (custom_function_call Demo.getattr Demo.Function_apply 0)
             (mkInterpreter Grad 1) 1 Demo.MyFn)
    [Leaf Demo.wx; Leaf Demo.n] (Demo.under Grad)
  = Ok (Leaf Demo.wx)
       (set_grad false (set_stack [mkInterpreter Grad 1] (set_stack [] (set_grad true (Demo.under Grad))))).
Proof.
  apply (forward_returns_the_callers_object Demo.getattr Demo.Function_apply 0
           (mkInterpreter Grad 1) Demo.MyFn [Leaf Demo.wx; Leaf Demo.n] (Demo.under Grad)
           (mkInterpreter Grad 1) [] Demo.x
           (set_stack [] (set_grad true (Demo.under Grad))) 0%nat Demo.wx);
    try reflexivity.
  intros [| [| j']] o' Hlt Ho'; [lia | | discriminate].
  cbn in Ho'. injection Ho' as <-. discriminate.
Defined.

(** ** Scoped state *)

(** X7.  Whatever the redispatch does to the state, when the forward of
    the generated class returns or raises, grad mode is what it was when
    the forward was entered and the layer that was on top of the stack is
    on top again. *)
Theorem forward_restores_grad_mode_and_layer
    getattr Function_apply fuel interpreter f operands w :
  match forward (Generated getattr (custom_function_call getattr Function_apply fuel)
                   interpreter (level interpreter) f) operands w with
  | Ok _ w' | Raise _ w' =>
      grad_enabled w' = grad_enabled w
      ∧ head (dynamic_layer_stack w') = head (dynamic_layer_stack w)
  | OutOfFuel => True
  end.
Proof.
  rewrite Generated_forward_eq.
  destruct (dynamic_layer_stack w) as [| top rest] eqn:Hst; [by rewrite Hst |].
  destruct (custom_function_call _ _ _ _ _ _) as [output w1 | e w1 |]; [| done | done].
  set (W := set_grad _ _).
  destruct (wrap_outputs_run_ids output
              (Node PyTuple (map (pytree.tree_map_only is_Tensor
                                    (λ x, _unwrap_for_grad x (level interpreter))) operands))
              (Node PyTuple operands) (level interpreter) W) as (t' & -> & _).
  done.
Qed.

Lemma keeps_scopes_bind {A B} (m : M A) (k : A → M B) :
  keeps_scopes m → (∀ a, keeps_scopes (k a)) → keeps_scopes (m ≫= k).
Proof.
  intros Hm Hk w. unfold mbind, M_bind. specialize (Hm w).
  destruct (m w) as [a w1 | e w1 |]; [| done | done].
  specialize (Hk a w1). destruct (k a w1) as [b w2 | e w2 |]; [| | done];
    destruct Hm as (? & ? & ?), Hk as (? & ? & ?); repeat split; congruence.
Qed.

Lemma keeps_scopes_ret {A} (a : A) : keeps_scopes (mret a).
Proof. by intros w. Qed.

Lemma keeps_scopes_raise {A} e : keeps_scopes (raise e : M A).
Proof. by intros w. Qed.

Lemma wrap_outputs_keeps_scopes outputs unwrapped_inputs orig_inputs lvl :
  keeps_scopes (wrap_outputs_maintaining_identity outputs unwrapped_inputs orig_inputs lvl).
Proof.
  intros w.
  by destruct (wrap_outputs_run_ids outputs unwrapped_inputs orig_inputs lvl w)
    as (t' & -> & _).
Qed.

Section scopes.

Variable getattr : PyTree → string → option method.
Variable Function_apply : SingleLevelFunction → list PyTree → M PyTree.

(** The user's methods keep the scoped state. *)
Hypothesis user_keeps :
  ∀ o name m, getattr o name = Some m → ∀ args kw, keeps_scopes (m args kw).

(** The autograd engine changes the scoped state only through the methods
    of the class it applies. *)
Hypothesis apply_keeps :
  ∀ cls operands,
    (∀ ops, keeps_scopes (forward cls ops)) →
    (∀ ctx outputs ops, keeps_scopes (setup_context cls ctx outputs ops)) →
    keeps_scopes (Function_apply cls operands).

Lemma call_method_keeps_scopes o name args kw :
  keeps_scopes (call_method getattr o name args kw).
Proof.
  unfold call_method. destruct (getattr o name) as [m |] eqn:Hm.
  - by apply (user_keeps o name).
  - apply keeps_scopes_raise.
Qed.

Lemma forward_keeps_scopes (cfc : method) interpreter f operands :
  (∀ args kw, keeps_scopes (cfc args kw)) →
  keeps_scopes (forward (Generated getattr cfc interpreter (level interpreter) f) operands).
Proof.
  intros Hcfc w. rewrite Generated_forward_eq.
  destruct (dynamic_layer_stack w) as [| top rest] eqn:Hst; [done |].
  match goal with |- context [cfc ?a ?k ?s] => pose proof (Hcfc a k s) as H end.
  destruct (cfc _ _ _) as [output w1 | e w1 |]; [| | done];
    cbn in H; destruct H as (Hs1 & Hg1 & Ha1).
  - match goal with |- context [wrap_outputs_maintaining_identity ?a ?b ?c ?l ?s] =>
      pose proof (wrap_outputs_keeps_scopes a b c l s) as H;
      destruct (wrap_outputs_maintaining_identity a b c l s) as [t' w2 | e w2 |]
    end; [| | done]; cbn in H; destruct H as (-> & -> & ->);
      by rewrite Hs1, Ha1.
  - cbn. by rewrite Hs1, Ha1.
Qed.

Lemma custom_function_call_grad_keeps_scopes (cfc : method) interpreter f operands :
  (∀ args kw, keeps_scopes (cfc args kw)) →
  keeps_scopes (custom_function_call_grad getattr Function_apply cfc interpreter f operands).
Proof.
  intros Hcfc w.
  unfold custom_function_call_grad, enable_autograd_function, with_, mbind, M_bind.
  cbn [autograd_function_allowed set_allowed].
  match goal with |- context [Function_apply ?c ?o ?s] =>
    pose proof (apply_keeps c o) as H; specialize (H (λ ops, forward_keeps_scopes cfc _ _ ops Hcfc));
    specialize (H (λ ctx out ops, call_method_keeps_scopes _ _ _ _)); specialize (H s)
  end.
  destruct (Function_apply _ _ _) as [out w1 | e w1 |]; [| | done];
    cbn in H |- *; destruct H as (-> & -> & _); done.
Qed.

Lemma call_rule_keeps_scopes (kernel : rule) interpreter args kw :
  (∀ i f ops, keeps_scopes (kernel i f ops)) →
  keeps_scopes (call_rule kernel interpreter args kw).
Proof.
  intros Hk. unfold call_rule.
  destruct args as [| f ops], kw as [| [k v] [| ? ?]];
    repeat case_bool_decide; first [apply Hk | apply keeps_scopes_raise].
Qed.

Lemma operator_keeps_scopes_step (cfc : method) :
  (∀ args kw, keeps_scopes (cfc args kw)) →
  ∀ args kw,
    keeps_scopes (CustomFunctionPyOperator_call getattr
                    (PyOperator_call (functorch_table getattr Function_apply cfc)) args kw).
Proof.
  intros Hcfc args kw w.
  unfold CustomFunctionPyOperator_call, PyOperator_call, mbind, M_bind,
    _are_functorch_transforms_active, get_world.
  destruct (dynamic_layer_stack w) as [| interpreter rest] eqn:Hst.
  - destruct args as [| f x]; [done |].
    pose proof (call_method_keeps_scopes f "apply" x kw w) as H.
    by rewrite Hst in H.
  - cbv beta iota. rewrite Hst.
    assert (Hrule : ∀ kernel, functorch_table getattr Function_apply cfc (key interpreter)
                              = Some kernel →
                              ∀ i f ops, keeps_scopes (kernel i f ops)).
    { intros kernel Hk i f ops. destruct (key interpreter); cbn in Hk;
        injection Hk as <-;
        first [by apply custom_function_call_grad_keeps_scopes | apply keeps_scopes_raise]. }
    destruct (functorch_table _ _ _ _) as [kernel |]; [| done].
    pose proof (call_rule_keeps_scopes kernel interpreter args kw (Hrule kernel eq_refl) w) as H.
    by rewrite Hst in H.
Qed.

(** X8.  Stack discipline: if the user's methods leave the interpreter
    stack, grad mode and the autograd-function flag as they found them,
    and the autograd engine touches them only through the methods of the
    class it applies, then so does every call of the operator, whether it
    returns or raises, at every depth of nesting. *)
Theorem operator_keeps_scopes fuel args kw :
  keeps_scopes (custom_function_call getattr Function_apply fuel args kw).
Proof.
  revert args kw. induction fuel as [| fuel IH]; intros args kw;
    rewrite custom_function_call_unfold; apply operator_keeps_scopes_step.
  - by intros a k w.
  - exact IH.
Qed.

End scopes.

(** The user program of the examples keeps the scoped state. *)
Lemma Demo_getattr_methods o name m :
  Demo.getattr o name = Some m →
  m = (λ args _, match args with
                 | x :: _ => mret x
                 | [] => raise (TypeError "forward() missing 1 required positional argument")
                 end)
  ∨ m = (λ _ _, mret (Leaf (Opaque 0 PyNone)))
  ∨ m = (λ args _, mret (Node PyTuple (tail args))).
Proof.
  destruct o as [[? ? | ? ? ? | id v] | ? ?]; try discriminate.
  do 100 (destruct id as [| id]; [discriminate |]).
  destruct id as [| id]; [| discriminate].
  unfold Demo.getattr. repeat case_bool_decide; intros Hm; try discriminate;
    injection Hm as <-; auto.
Qed.

Lemma Demo_user_keeps o name m :
  Demo.getattr o name = Some m → ∀ args kw, keeps_scopes (m args kw).
Proof.
  intros Hm args kw.
  destruct (Demo_getattr_methods o name m Hm) as [-> | [-> | ->]]; intros w; try done.
  by destruct args.
Qed.

Lemma Demo_apply_keeps cls operands :
  (∀ ops, keeps_scopes (forward cls ops)) →
  (∀ ctx outputs ops, keeps_scopes (setup_context cls ctx outputs ops)) →
  keeps_scopes (Demo.Function_apply cls operands).
Proof.
  intros Hf Hs. unfold Demo.Function_apply.
  apply keeps_scopes_bind; [apply Hf |]. intros outputs.
  apply keeps_scopes_bind; [apply Hs |]. intros _. apply keeps_scopes_ret.
Qed.

Lemma operator_keeps_scopes_witness :
  keeps_scopes (custom_function_call Demo.getattr Demo.Function_apply 2
                  [Demo.MyFn; Leaf Demo.wx; Leaf Demo.n] []).
Proof.
  apply (operator_keeps_scopes Demo.getattr Demo.Function_apply
           Demo_user_keeps Demo_apply_keeps 2).
Defined.

(** ** The budget of redispatches *)

Section budget.

Variable getattr : PyTree → string → option method.
Variable Function_apply : SingleLevelFunction → list PyTree → M PyTree.

(** The user's methods give an answer. *)
Hypothesis user_answers :
  ∀ o name m, getattr o name = Some m → ∀ args kw w, m args kw w ≠ OutOfFuel.

(** The autograd engine gives an answer when the methods of the class do;
    it runs the forward with the interpreter stack it was called with. *)
Hypothesis apply_answers :
  ∀ cls operands w,
    (∀ ops w', dynamic_layer_stack w' = dynamic_layer_stack w →
               forward cls ops w' ≠ OutOfFuel) →
    (∀ ctx outputs ops w', setup_context cls ctx outputs ops w' ≠ OutOfFuel) →
    Function_apply cls operands w ≠ OutOfFuel.

Lemma call_method_answers o name args kw w :
  call_method getattr o name args kw w ≠ OutOfFuel.
Proof.
  unfold call_method. destruct (getattr o name) as [m |] eqn:Hm; [| done].
  by apply (user_answers o name).
Qed.

Lemma forward_answers (cfc : method) interpreter f operands w :
  (∀ args kw w1, (length (dynamic_layer_stack w1) < length (dynamic_layer_stack w))%nat →
                 cfc args kw w1 ≠ OutOfFuel) →
  forward (Generated getattr cfc interpreter (level interpreter) f) operands w ≠ OutOfFuel.
Proof.
  intros Hcfc. rewrite Generated_forward_eq.
  destruct (dynamic_layer_stack w) as [| top rest] eqn:Hst; [done |].
  match goal with |- context [cfc ?a ?k ?s] =>
    pose proof (Hcfc a k s) as H; destruct (cfc a k s) as [output w1 | e w1 |]
  end; [| done | by apply H; cbn; lia].
  match goal with |- context [wrap_outputs_maintaining_identity ?a ?b ?c ?l ?s] =>
    by destruct (wrap_outputs_run a b c l s) as (t' & w' & -> & _)
  end.
Qed.

Lemma call_rule_answers (kernel : rule) interpreter args kw w :
  (∀ f ops, kernel interpreter f ops w ≠ OutOfFuel) →
  call_rule kernel interpreter args kw w ≠ OutOfFuel.
Proof.
  intros Hk. unfold call_rule.
  destruct args as [| f ops], kw as [| [k v] [| ? ?]];
    repeat case_bool_decide; first [apply Hk | done].
Qed.

(** X9.  The depth of the redispatches is the number of layers on the
    interpreter stack: given user methods and an autograd engine that
    answer, a budget of as many redispatches as there are layers is enough
    for the operator to return or raise. *)
Theorem operator_answers_within_budget fuel :
  ∀ args kw w,
    (length (dynamic_layer_stack w) ≤ fuel)%nat →
    custom_function_call getattr Function_apply fuel args kw w ≠ OutOfFuel.
Proof.
  induction fuel as [| fuel IH]; intros args kw w Hlen.
  - destruct (dynamic_layer_stack w) as [| ? ?] eqn:Hst; [| cbn in Hlen; lia].
    rewrite custom_function_call_idle by done.
    destruct args; [done | apply call_method_answers].
  - destruct (dynamic_layer_stack w) as [| interpreter rest] eqn:Hst.
    { rewrite custom_function_call_idle by done.
      destruct args; [done | apply call_method_answers]. }
    rewrite (custom_function_call_active _ _ _ _ _ _ _ _ Hst).
    cbn [redispatch].
    destruct (key interpreter); cbn [functorch_table];
      apply call_rule_answers; intros f ops; [| done | done | done].
    unfold custom_function_call_grad, enable_autograd_function, with_, mbind, M_bind.
    match goal with |- context [Function_apply ?c ?o ?s] =>
      pose proof (apply_answers c o s) as H; destruct (Function_apply c o s)
    end; [done | done |].
    apply H; [| intros; apply call_method_answers].
    intros ops' w' Hw'. apply forward_answers. intros a k w1 Hlt.
    apply IH. rewrite Hw' in Hlt. cbn in Hlt. rewrite Hst in Hlt. cbn in Hlt, Hlen. lia.
Qed.

End budget.

Lemma Demo_user_answers o name m :
  Demo.getattr o name = Some m → ∀ args kw w, m args kw w ≠ OutOfFuel.
Proof.
  intros Hm args kw w.
  destruct (Demo_getattr_methods o name m Hm) as [-> | [-> | ->]]; try done.
  by destruct args.
Qed.

Lemma Demo_apply_answers cls operands w :
  (∀ ops w', dynamic_layer_stack w' = dynamic_layer_stack w →
             forward cls ops w' ≠ OutOfFuel) →
  (∀ ctx outputs ops w', setup_context cls ctx outputs ops w' ≠ OutOfFuel) →
  Demo.Function_apply cls operands w ≠ OutOfFuel.
Proof.
  intros Hf Hs. unfold Demo.Function_apply, mbind, M_bind.
  pose proof (Hf operands w eq_refl) as H1.
  destruct (forward cls operands w) as [out w1 | e w1 |]; [| done | done].
  match goal with |- context [setup_context cls ?c ?o ?p ?s] =>
    pose proof (Hs c o p s) as H2; by destruct (setup_context cls c o p s)
  end.
Qed.

Lemma operator_answers_within_budget_witness :
  (length (dynamic_layer_stack (mkWorld [mkInterpreter Grad 2; mkInterpreter Grad 1]
                                  false false 10)) ≤ 2)%nat
  ∧ custom_function_call Demo.getattr Demo.Function_apply 2
      [Demo.MyFn; Leaf Demo.wx; Leaf Demo.n] []
      (mkWorld [mkInterpreter Grad 2; mkInterpreter Grad 1] false false 10)
    ≠ OutOfFuel.
Proof.
  split; [cbn; lia |].
  apply (operator_answers_within_budget Demo.getattr Demo.Function_apply
           Demo_user_answers Demo_apply_answers 2).
  cbn. lia.
Defined.
